(** * MojiNav (round_1/frontend/src/App.tsx): route tracking and guidance

    A shallow embedding of the navigation logic of [App.tsx]: the Haversine
    distance [calculateDistance], the nearest-vertex search
    [findNearestDistanceToRoute], the success callback that
    [startPositionWatch] registers with the geolocation service, and the
    continuation of [recalculateRoute].

    JavaScript numbers that carry coordinates and distances are modelled as
    real numbers (rounding is not modelled), extended with [Infinity] where
    the source uses it; [Date.now()] and array indices are integers. The
    navigation logic reads a distance only through its comparisons with 6,
    20 and 30 metres, and is stated on these real numbers.

    What the two distance functions compute as numbers is stated on a
    second embedding of them, in IEEE 754 binary64 (module [Binary64]),
    where every operation rounds and [NaN] is a value, as in the program. *)

From Stdlib Require Import Floats.
From Stdlib Require Import Reals Lra Lia ZArith Ascii String List Bool.
From Stdlib Require DecimalString.
Import ListNotations.

Open Scope R_scope.

(** * Part I: the model *)

(** ** Numbers *)

Module MathJs.

(** [Math.atan2(y, x)] on real arguments. *)
Definition atan2 (y x : R) : R :=
  if Rlt_dec 0 x then atan (y / x)
  else if Rlt_dec x 0 then
         (if Rlt_dec y 0 then atan (y / x) - PI else atan (y / x) + PI)
  else if Rlt_dec 0 y then PI / 2
  else if Rlt_dec y 0 then - (PI / 2)
  else 0.

(** [x < y] as the branch condition it is in the source. *)
Definition ltb (x y : R) : bool := if Rlt_dec x y then true else false.

End MathJs.

(** A number that may be [Infinity], as [minDist] is in
    [findNearestDistanceToRoute], with its [<] and [>]. *)
Inductive number : Type :=
| Num (r : R)
| Infinity.

Definition number_ltb (x y : number) : bool :=
  match x, y with
  | Num a, Num b => MathJs.ltb a b
  | Num _, Infinity => true
  | Infinity, _ => false
  end.

Definition number_gtb (x y : number) : bool := number_ltb y x.

(** [arr[i]] for a numeric index held in a number: [undefined] ([None]) out
    of range. *)
Definition array_get {A : Type} (arr : list A) (i : Z) : option A :=
  if (i <? 0)%Z then None else nth_error arr (Z.to_nat i).

(** ** Types *)

Inductive AppView : Type :=
| loading | location_error | network_error | rate_limited | grid | searching
| results | no_results | navigating | recalculating | arrived | settings.

Module Location.
Record t : Type := mk { lat : R; lng : R }.
End Location.

Module SearchResult.
Record t : Type := mk {
  id : Z;
  lat : R;
  lng : R;
  tags : list (string * string)
}.
End SearchResult.

Module RouteStep.
Record t : Type := mk {
  instruction : string;
  type : Z;
  distance : R;
  duration : R;
  way_points : list Z
}.
End RouteStep.

(** A coordinate of the route is the pair [[lng, lat]]: [coord[0]] is
    [fst], [coord[1]] is [snd]. *)
Module Route.
Record t : Type := mk {
  distance : R;
  duration : R;
  coordinates : list (R * R);
  steps : list RouteStep.t
}.
End Route.

(** ** Utility functions

    On real numbers; the numbers of the program are in [Binary64]
    below. *)

(** [calculateDistance(lat1, lng1, lat2, lng2)]: Haversine formula, metres. *)
Definition calculateDistance (lat1 lng1 lat2 lng2 : R) : R :=
  let R0 := 6371000 in
  let dLat := (lat2 - lat1) * PI / 180 in
  let dLng := (lng2 - lng1) * PI / 180 in
  let a := sin (dLat / 2) ^ 2 +
           cos (lat1 * PI / 180) * cos (lat2 * PI / 180) *
           sin (dLng / 2) ^ 2 in
  let c := 2 * MathJs.atan2 (sqrt a) (sqrt (1 - a)) in
  R0 * c.

(** The term [a] of [calculateDistance], named for the proofs. *)
Definition haversine_a (lat1 lng1 lat2 lng2 : R) : R :=
  sin ((lat2 - lat1) * PI / 180 / 2) ^ 2 +
  cos (lat1 * PI / 180) * cos (lat2 * PI / 180) *
  sin ((lng2 - lng1) * PI / 180 / 2) ^ 2.

(** [findNearestDistanceToRoute(loc, coords)]: the loop over [coords] is a
    left fold on [minDist], which starts at [Infinity]. *)
Definition findNearestDistanceToRoute
  (loc : Location.t) (coords : list (R * R)) : number :=
  fold_left
    (fun minDist coord =>
       let dist := calculateDistance (Location.lat loc) (Location.lng loc)
                                     (snd coord) (fst coord) in
       if number_ltb (Num dist) minDist then Num dist else minDist)
    coords Infinity.

(** ** Component state

    The state cells and refs of [App] that the navigation code reads or
    writes. *)
Record AppState : Type := mkAppState {
  view : AppView;
  location : option Location.t;
  route : option Route.t;
  currentStepIndex : nat;
  watchIdRef : option nat;
  lastRecalcTimeRef : Z
}.

Definition setView (v : AppView) (s : AppState) : AppState :=
  mkAppState v (location s) (route s) (currentStepIndex s)
             (watchIdRef s) (lastRecalcTimeRef s).

Definition setLocation (l : option Location.t) (s : AppState) : AppState :=
  mkAppState (view s) l (route s) (currentStepIndex s)
             (watchIdRef s) (lastRecalcTimeRef s).

Definition setRoute (r : option Route.t) (s : AppState) : AppState :=
  mkAppState (view s) (location s) r (currentStepIndex s)
             (watchIdRef s) (lastRecalcTimeRef s).

(** [setCurrentStepIndex] given an updater function of the previous value. *)
Definition setCurrentStepIndex (f : nat -> nat) (s : AppState) : AppState :=
  mkAppState (view s) (location s) (route s) (f (currentStepIndex s))
             (watchIdRef s) (lastRecalcTimeRef s).

Definition set_watchIdRef (w : option nat) (s : AppState) : AppState :=
  mkAppState (view s) (location s) (route s) (currentStepIndex s)
             w (lastRecalcTimeRef s).

Definition set_lastRecalcTimeRef (t : Z) (s : AppState) : AppState :=
  mkAppState (view s) (location s) (route s) (currentStepIndex s)
             (watchIdRef s) t.

(** What a callback asks of the browser. *)
Inductive Effect : Type :=
| ClearWatch (watchId : nat)
| FetchRoute (currentLoc : Location.t) (destination : SearchResult.t).

(** ** The position watch of [startPositionWatch] *)

(** The updater passed to [setCurrentStepIndex]: step progression, within
    6 m of the end of the step. *)
Definition stepUpdater
  (currentRoute : Route.t) (newLoc : Location.t) (prevIndex : nat) : nat :=
  match nth_error (Route.steps currentRoute) prevIndex with
  | Some step =>
      if (1 <? length (RouteStep.way_points step))%nat then
        match array_get (RouteStep.way_points step)
                (Z.of_nat (length (RouteStep.way_points step)) - 1) with
        | Some endIdx =>
            match array_get (Route.coordinates currentRoute) endIdx with
            | Some endCoord =>
                let distToStep :=
                  calculateDistance (Location.lat newLoc) (Location.lng newLoc)
                                    (snd endCoord) (fst endCoord) in
                if MathJs.ltb distToStep 6 &&
                   (Z.of_nat prevIndex
                    <? Z.of_nat (length (Route.steps currentRoute)) - 1)%Z
                then (prevIndex + 1)%nat
                else prevIndex
            | None => prevIndex
            end
        | None => prevIndex
        end
      else prevIndex
  | None => prevIndex
  end.

(** The success callback given to [watchPosition], closed over
    [destination] and [currentRoute]; [latitude], [longitude] are
    [position.coords] and [now] is what [Date.now()] returns during the
    call. *)
Definition positionCallback
  (destination : SearchResult.t) (currentRoute : Route.t)
  (latitude longitude : R) (now : Z) (s : AppState)
  : AppState * list Effect :=
  let newLoc := Location.mk latitude longitude in
  let s := setLocation (Some newLoc) s in
  let distToDest :=
    calculateDistance (Location.lat newLoc) (Location.lng newLoc)
                      (SearchResult.lat destination)
                      (SearchResult.lng destination) in
  if MathJs.ltb distToDest 20 then
    match watchIdRef s with
    | Some watchId =>
        (setView arrived (set_watchIdRef None s), [ClearWatch watchId])
    | None => (setView arrived s, [])
    end
  else
    let s := setCurrentStepIndex (stepUpdater currentRoute newLoc) s in
    let nearestDist :=
      findNearestDistanceToRoute newLoc (Route.coordinates currentRoute) in
    if number_gtb nearestDist (Num 30) then
      if (now - lastRecalcTimeRef s >? 10000)%Z then
        (setView recalculating (set_lastRecalcTimeRef now s),
         [FetchRoute newLoc destination])
      else (s, [])
    else (s, []).

(** ** [recalculateRoute] *)

(** How the [fetch] of [recalculateRoute] settles: an ok response with its
    parsed route, a response that is not ok, or a rejection ([fetch] or
    [response.json()] throws). *)
Inductive RouteResponse : Type :=
| ResponseOk (routeData : Route.t)
| ResponseNotOk
| ResponseError.

(** The part of [recalculateRoute] that runs once the response is there. *)
Definition recalculateRoute_settled
  (response : RouteResponse) (s : AppState) : AppState :=
  match response with
  | ResponseOk routeData =>
      setView navigating
        (setCurrentStepIndex (fun _ => 0%nat) (setRoute (Some routeData) s))
  | ResponseNotOk => setView navigating s
  | ResponseError => setView navigating s
  end.

Definition is_failure (response : RouteResponse) : bool :=
  match response with
  | ResponseOk _ => false
  | ResponseNotOk | ResponseError => true
  end.

(** ** The page and the browser

    The component state together with what the browser holds for it: the
    registered position watches (watch id and the closure of its callback)
    and the route requests of [recalculateRoute] that have not settled. *)
Record Watch : Type := mkWatch {
  watch_destination : SearchResult.t;
  watch_route : Route.t
}.

Record System : Type := mkSystem {
  app : AppState;
  watches : list (nat * Watch);
  nextWatchId : nat;
  pending : list (Location.t * SearchResult.t)
}.

Fixpoint find_watch (watchId : nat) (ws : list (nat * Watch)) : option Watch :=
  match ws with
  | [] => None
  | (i, w) :: rest => if Nat.eqb i watchId then Some w else find_watch watchId rest
  end.

Definition clearWatch (watchId : nat) (ws : list (nat * Watch))
  : list (nat * Watch) :=
  filter (fun iw => negb (Nat.eqb (fst iw) watchId)) ws.

Definition perform (sys : System) (e : Effect) : System :=
  match e with
  | ClearWatch watchId =>
      mkSystem (app sys) (clearWatch watchId (watches sys))
               (nextWatchId sys) (pending sys)
  | FetchRoute currentLoc destination =>
      mkSystem (app sys) (watches sys) (nextWatchId sys)
               (pending sys ++ [(currentLoc, destination)])
  end.

Definition with_app (a : AppState) (sys : System) : System :=
  mkSystem a (watches sys) (nextWatchId sys) (pending sys).

(** [startPositionWatch(destination, currentRoute)]: clears the watch held
    in [watchIdRef], registers a new one and stores its id. *)
Definition startPositionWatch
  (destination : SearchResult.t) (currentRoute : Route.t) (sys : System)
  : System :=
  let ws := match watchIdRef (app sys) with
            | Some old => clearWatch old (watches sys)
            | None => watches sys
            end in
  let watchId := nextWatchId sys in
  mkSystem (set_watchIdRef (Some watchId) (app sys))
           (ws ++ [(watchId, mkWatch destination currentRoute)])
           (S watchId) (pending sys).

(** [goBack]. *)
Definition goBack (sys : System) : System :=
  let ws := match watchIdRef (app sys) with
            | Some old => clearWatch old (watches sys)
            | None => watches sys
            end in
  mkSystem (setView grid (setRoute None (set_watchIdRef None (app sys))))
           ws (nextWatchId sys) (pending sys).

Inductive Event : Type :=
| RouteLoaded (result : SearchResult.t) (routeData : Route.t)
| Position (watchId : nat) (latitude longitude : R) (now : Z)
| RecalcSettled (response : RouteResponse)
| GoBack.

(** One event: [RouteLoaded] is the ok branch of [handleDestinationSelect]
    once its route is parsed, [Position] the browser calling the success
    callback of a registered watch, [RecalcSettled] the oldest pending
    route request settling. *)
Definition step (ev : Event) (sys : System) : System * list Effect :=
  match ev with
  | RouteLoaded result routeData =>
      let a := setView navigating
                 (setCurrentStepIndex (fun _ => 0%nat)
                    (setRoute (Some routeData) (app sys))) in
      (startPositionWatch result routeData (with_app a sys), [])
  | Position watchId latitude longitude now =>
      match find_watch watchId (watches sys) with
      | Some w =>
          let '(a, effects) :=
            positionCallback (watch_destination w) (watch_route w)
                             latitude longitude now (app sys) in
          (fold_left perform effects (with_app a sys), effects)
      | None => (sys, [])
      end
  | RecalcSettled response =>
      match pending sys with
      | _ :: rest =>
          (mkSystem (recalculateRoute_settled response (app sys))
                    (watches sys) (nextWatchId sys) rest, [])
      | [] => (sys, [])
      end
  | GoBack => (goBack sys, [])
  end.

Fixpoint run (evs : list Event) (sys : System) : System * list Effect :=
  match evs with
  | [] => (sys, [])
  | ev :: rest =>
      let '(sys1, effects1) := step ev sys in
      let '(sys2, effects2) := run rest sys1 in
      (sys2, effects1 ++ effects2)
  end.

Definition is_fetch (e : Effect) : bool :=
  match e with
  | FetchRoute _ _ => true
  | ClearWatch _ => false
  end.

(** Number of route requests among the effects. *)
Definition requests (effects : list Effect) : nat :=
  length (filter is_fetch effects).

Definition is_position (ev : Event) : bool :=
  match ev with
  | Position _ _ _ _ => true
  | _ => false
  end.

Definition is_position_or_settled (ev : Event) : bool :=
  match ev with
  | Position _ _ _ _ | RecalcSettled _ => true
  | _ => false
  end.

(** The page before a destination is chosen. *)
Definition initialSystem (loc : option Location.t) : System :=
  mkSystem (mkAppState results loc None 0 None 0) [] 0 [].

(** In every state the page reaches, the browser holds exactly the watch
    whose id is in [watchIdRef]. *)
Definition watch_inv (sys : System) : Prop :=
  match watchIdRef (app sys) with
  | Some watchId =>
      exists w, watches sys = [(watchId, w)] /\ (watchId < nextWatchId sys)%nat
  | None => watches sys = []
  end.

(** ** Derived notions used in the statements *)

(** The end of step [i] of a route, as [stepUpdater] finds it: the
    coordinate indexed by the last way point of a step that has more than
    one way point. *)
Definition stepEndPoint (r : Route.t) (i : nat) : option (R * R) :=
  match nth_error (Route.steps r) i with
  | Some step =>
      if (1 <? length (RouteStep.way_points step))%nat then
        match array_get (RouteStep.way_points step)
                (Z.of_nat (length (RouteStep.way_points step)) - 1) with
        | Some endIdx => array_get (Route.coordinates r) endIdx
        | None => None
        end
      else None
  | None => None
  end.

(** The position is within 6 m of the end of step [i]. *)
Definition nearStepEnd (r : Route.t) (loc : Location.t) (i : nat) : Prop :=
  exists endCoord,
    stepEndPoint r i = Some endCoord /\
    calculateDistance (Location.lat loc) (Location.lng loc)
                      (snd endCoord) (fst endCoord) < 6.

(** Step [i] is not the last step. *)
Definition notLastStep (r : Route.t) (i : nat) : Prop :=
  (Z.of_nat i < Z.of_nat (length (Route.steps r)) - 1)%Z.

(** The arrival test and the off-route test of [positionCallback]. *)
Definition arrivalTest (destination : SearchResult.t) (loc : Location.t) : bool :=
  MathJs.ltb (calculateDistance (Location.lat loc) (Location.lng loc)
                                (SearchResult.lat destination)
                                (SearchResult.lng destination)) 20.

Definition offRouteTest (r : Route.t) (loc : Location.t) : bool :=
  number_gtb (findNearestDistanceToRoute loc (Route.coordinates r)) (Num 30).

(** The distances from [loc] to the vertices of [coords]. *)
Definition vertexDistances (loc : Location.t) (coords : list (R * R)) : list R :=
  map (fun coord => calculateDistance (Location.lat loc) (Location.lng loc)
                                      (snd coord) (fst coord)) coords.

(** The three outcomes of a call of [positionCallback]: the arrival branch,
    the branch that requests a recalculation, and the rest. *)
Inductive Outcome : Type := Arrived | Recalculating | Tracked.

Definition outcome
  (destination : SearchResult.t) (currentRoute : Route.t)
  (loc : Location.t) (now : Z) (s : AppState) : Outcome :=
  if arrivalTest destination loc then Arrived
  else if offRouteTest currentRoute loc &&
          (now - lastRecalcTimeRef s >? 10000)%Z
       then Recalculating
       else Tracked.


(** ** The specification's wording

    The statements of the specification that the code is compared with. *)
Module Spec.

Definition RECALC_DEBOUNCE : Z := 10000.

(** [offRoute = d > OFF_ROUTE_THRESHOLD], for a threshold of 5 to 10 m. *)
Definition offRoute (threshold : R) (r : Route.t) (loc : Location.t) : bool :=
  number_gtb (findNearestDistanceToRoute loc (Route.coordinates r))
             (Num threshold).

Definition off_route_threshold (threshold : R) : Prop := 5 <= threshold <= 10.

(** [lastRecalculationAt is null OR now - lastRecalculationAt >=
    RECALC_DEBOUNCE]; no recalculation recorded is the initial [0] of
    [lastRecalcTimeRef]. *)
Definition debounceOpen (lastRecalcTime now : Z) : Prop :=
  lastRecalcTime = 0%Z \/ (now - lastRecalcTime >= RECALC_DEBOUNCE)%Z.

(** A request is issued on an off-route evaluation exactly when the
    debounce is open. *)
Definition debounce_claim
  (destination : SearchResult.t) (currentRoute : Route.t)
  (latitude longitude : R) (now : Z) (s : AppState) : Prop :=
  arrivalTest destination (Location.mk latitude longitude) = false ->
  offRouteTest currentRoute (Location.mk latitude longitude) = true ->
  (requests (snd (positionCallback destination currentRoute
                                   latitude longitude now s)) = 1%nat
   <-> debounceOpen (lastRecalcTimeRef s) now).


(** After arrival no event advances the step, starts a recalculation or
    installs a route. *)
Definition arrival_terminal_claim (evs : list Event) (sys : System) : Prop :=
  view (app sys) = arrived ->
  forallb is_position_or_settled evs = true ->
  currentStepIndex (app (fst (run evs sys))) = currentStepIndex (app sys) /\
  requests (snd (run evs sys)) = 0%nat /\
  route (app (fst (run evs sys))) = route (app sys).

(** On each position event the index advances by one exactly when the
    position is near the end of the current step and the step is not the
    last, and is unchanged otherwise. *)
Definition step_advance_claim
  (destination : SearchResult.t) (currentRoute : Route.t)
  (latitude longitude : R) (now : Z) (s : AppState) : Prop :=
  let s' := fst (positionCallback destination currentRoute
                                  latitude longitude now s) in
  let cond := nearStepEnd currentRoute (Location.mk latitude longitude)
                          (currentStepIndex s) /\
              notLastStep currentRoute (currentStepIndex s) in
  (currentStepIndex s' = (currentStepIndex s + 1)%nat <-> cond) /\
  (~ cond -> currentStepIndex s' = currentStepIndex s).

(** The final destination: the end point of the last step of the route. *)
Definition finalDestination (r : Route.t) : option (R * R) :=
  stepEndPoint r (length (Route.steps r) - 1).

(** The arrival decision is true exactly when the position is less than
    20 m from the final destination of the route. *)
Definition arrival_claim
  (destination : SearchResult.t) (currentRoute : Route.t)
  (loc : Location.t) : Prop :=
  arrivalTest destination loc = true <->
  exists dest, finalDestination currentRoute = Some dest /\
               calculateDistance (Location.lat loc) (Location.lng loc)
                                 (snd dest) (fst dest) < 20.

(** When a recalculation request fails, the installed route and the step
    index are what they were before the request, and the view is
    [navigating]. [request] is the event that issues the request in [sys],
    which has no other request pending; [between] are the position events
    handled until the failure arrives. *)
Definition failure_atomic_claim
  (request : Event) (between : list Event) (response : RouteResponse)
  (sys : System) : Prop :=
  pending sys = [] ->
  requests (snd (step request sys)) = 1%nat ->
  forallb is_position between = true ->
  is_failure response = true ->
  let sys' := fst (step (RecalcSettled response)
                        (fst (run between (fst (step request sys))))) in
  route (app sys') = route (app sys) /\
  currentStepIndex (app sys') = currentStepIndex (app sys) /\
  view (app sys') = navigating.

End Spec.

(** ** A route and a session to evaluate the code on

    Three vertices on the meridian of longitude 0, about 111 m apart, and
    the steps the routing service returns for them. *)
Module Sample.

Definition coords : list (R * R) := [(0, 0); (0, 0.001); (0, 0.002)].

Definition steps : list RouteStep.t :=
  [ RouteStep.mk "Head north" 11 111 80 [0; 1]%Z;
    RouteStep.mk "Continue straight" 6 111 80 [1; 2]%Z;
    RouteStep.mk "Arrive at your destination" 10 0 0 [2; 2]%Z ].

Definition route0 : Route.t := Route.mk 222 160 coords steps.

(** The route a recalculation answers with. *)
Definition route1 : Route.t :=
  Route.mk 333 240 [(0, -0.001); (0, 0.002)]
    [ RouteStep.mk "Head north" 11 333 240 [0; 1]%Z;
      RouteStep.mk "Arrive at your destination" 10 0 0 [1; 1]%Z ].

(** A destination at the last vertex, and one 111 m past it. *)
Definition pub : SearchResult.t := SearchResult.mk 1 0.002 0 [].
Definition cafe : SearchResult.t := SearchResult.mk 2 0.003 0 [].

Definition t0 : Z := 1700000000000.

(** Navigating [route0] at its start, watch 0 registered. *)
Definition navigating0 : AppState :=
  mkAppState navigating (Some (Location.mk 0 0)) (Some route0) 0 (Some 0%nat) 0.

(** The same, a recalculation having been requested at [t0]. *)
Definition recalculated0 : AppState :=
  mkAppState navigating (Some (Location.mk 0 0)) (Some route0) 0 (Some 0%nat) t0.

(** Navigating [route0] on its second step. *)
Definition navigating1 : AppState :=
  mkAppState navigating (Some (Location.mk 0.001 0)) (Some route0) 1
             (Some 0%nat) 0.

Definition start : System := initialSystem (Some (Location.mk 0 0)).

(** The page once the route to [pub] is loaded. *)
Definition session0 : System := fst (step (RouteLoaded pub route0) start).

(** Then a fix 111 m south of the route at [t0]: a recalculation is
    requested. *)
Definition recalculating0 : System :=
  fst (step (Position 0 (-0.001) 0 t0) session0).

(** Then, one second later and the request still pending, a fix at the
    destination. *)
Definition arrived0 : System :=
  fst (step (Position 0 0.002 0 (t0 + 1000)) recalculating0).

End Sample.

(** * Part I, continued: the rest of the page

    The remaining functions of [App.tsx]: [formatDistance], the distance
    unit kept in local storage, the instruction panel of the navigation
    view, the handlers [handleAmenitySelect], [handleDestinationSelect],
    [retryLocation] and [goBack] with the state cells they write, and the
    cascade of views of the render. *)

(** ** [formatDistance] *)

Inductive DistanceUnit : Type := feet | meters.

(** [Math.round]: the nearest integer, a half rounding up. *)
Definition Math_round (x : R) : Z := Zfloor (x + 1 / 2).

(** [x >= y] as a branch condition. *)
Definition number_geb (x y : R) : bool := if Rle_dec y x then true else false.

(** The numbers [formatDistance] shows: an integer ([Math.round(x)]) or a
    number of tenths ([Math.round(x * 10) / 10]). *)
Inductive Shown : Type :=
| Whole (n : Z)
| Tenths (k : Z).

Definition Shown_value (v : Shown) : R :=
  match v with
  | Whole n => IZR n
  | Tenths k => IZR k / 10
  end.

Definition Z_toString (n : Z) : string :=
  DecimalString.NilZero.string_of_int (Z.to_int n).

(** [value.toString()] for these numbers (below [1e21], where the result
    is positional): the integer part and, when it is not zero, the tenths
    digit after a point. *)
Definition Shown_toString (v : Shown) : string :=
  match v with
  | Whole n => Z_toString n
  | Tenths k =>
      ((if (k <? 0)%Z then "-" else "") ++
       Z_toString (Z.abs k / 10) ++
       (if (Z.abs k mod 10 =? 0)%Z then ""
        else "." ++ Z_toString (Z.abs k mod 10)))%string
  end.

Definition DIGIT_EMOJIS : list string :=
  ["0️⃣"; "1️⃣"; "2️⃣"; "3️⃣"; "4️⃣"; "5️⃣"; "6️⃣"; "7️⃣"; "8️⃣"; "9️⃣"]%string.

(** [parseInt(char)] of one character: its digit, or [NaN] ([None]). *)
Definition parseInt_char (char : Ascii.ascii) : option nat :=
  let code := Ascii.nat_of_ascii char in
  if ((48 <=? code) && (code <=? 57))%nat then Some (code - 48)%nat else None.

(** The function mapped over the characters of the number. *)
Definition emojiOfChar (char : Ascii.ascii) : string :=
  if Ascii.eqb char "."%char then "."%string
  else match parseInt_char char with
       | Some d => nth d DIGIT_EMOJIS (String char EmptyString)
       | None => String char EmptyString
       end.

Definition emojiDigits (s : string) : string :=
  String.concat "" (map emojiOfChar (list_ascii_of_string s)).

(** [formatDistance(meters, unit)]; the conversions to feet, miles and
    kilometres are the exact products and quotients here. *)
Definition formatDistance (m : R) (unit : DistanceUnit) : string :=
  let '(value, suffix) :=
    match unit with
    | feet =>
        let ft := m * 3.28084 in
        if number_geb ft 1000
        then (Tenths (Math_round (ft / 5280 * 10)), "📏"%string)
        else (Whole (Math_round ft), "🦶"%string)
    | meters =>
        if number_geb m 1000
        then (Tenths (Math_round (m / 1000 * 10)), "📏"%string)
        else (Whole (Math_round m), "Ⓜ️"%string)
    end in
  (emojiDigits (Shown_toString value) ++ suffix)%string.

(** ** The distance unit in local storage *)

Definition DistanceUnit_toString (unit : DistanceUnit) : string :=
  match unit with
  | feet => "feet"
  | meters => "meters"
  end.

(** The initial state of [distanceUnit], from
    [localStorage.getItem('mojinav_unit')]. *)
Definition initialDistanceUnit (saved : option string) : DistanceUnit :=
  match saved with
  | Some s =>
      if String.eqb s "feet" then feet
      else if String.eqb s "meters" then meters
      else feet
  | None => feet
  end.

(** The effect on [distanceUnit]: what [localStorage] holds under
    ['mojinav_unit'] afterwards. *)
Definition saveDistanceUnit (unit : DistanceUnit) : option string :=
  Some (DistanceUnit_toString unit).

(** ** The instruction panel of the navigation view *)

(** [MANEUVER_ARROWS[type]]. *)
Definition MANEUVER_ARROWS (type : Z) : option string :=
  match type with
  | 0 => Some "⬅️"
  | 1 => Some "➡️"
  | 2 => Some "↗️"
  | 3 => Some "↖️"
  | 4 => Some "➡️"
  | 5 => Some "⬅️"
  | 6 => Some "⬆️"
  | 7 => Some "↩️"
  | 8 => Some "↩️"
  | 9 => Some "↩️"
  | 10 => Some "🏁"
  | 11 => Some "⬆️"
  | 12 => Some "⬆️"
  | 13 => Some "⬆️"
  | _ => None
  end%Z%string.

Definition arrowOr (found : option string) : string :=
  match found with
  | Some a => a
  | None => "⬆️"%string
  end.

Record InstructionPanel : Type := mkInstructionPanel {
  instruction_arrow : string;
  instruction_distance : string;
  next_instruction : option (string * string);
  total_distance : string
}.

(** The instructions the navigation view renders for the installed route
    and the current index. *)
Definition instructionPanel
  (r : Route.t) (index : nat) (unit : DistanceUnit) : InstructionPanel :=
  let currentStep := nth_error (Route.steps r) index in
  let nextStep := nth_error (Route.steps r) (index + 1) in
  let arrow :=
    arrowOr (MANEUVER_ARROWS (match currentStep with
                              | Some st => RouteStep.type st
                              | None => 6%Z
                              end)) in
  mkInstructionPanel
    arrow
    (formatDistance (match currentStep with
                     | Some st => RouteStep.distance st
                     | None => 0
                     end) unit)
    (match nextStep with
     | Some st => Some (arrowOr (MANEUVER_ARROWS (RouteStep.type st)),
                        formatDistance (RouteStep.distance st) unit)
     | None => None
     end)
    (formatDistance (Route.distance r) unit).

(** ** The page: all the state of [App] and its handlers *)

Inductive AmenityId : Type :=
| amenity_pub | amenity_cafe | amenity_train | amenity_pool | amenity_gym
| amenity_park | amenity_pizza | amenity_fastfood | amenity_fuel
| amenity_pharmacy | amenity_atm | amenity_supermarket | amenity_toilet
| amenity_parking | amenity_library | amenity_cinema.

(** The body of an ok answer of [/api/search]. *)
Module SearchData.
Record t : Type := mk {
  count : Z;
  results : list SearchResult.t
}.
End SearchData.

(** How a [fetch] settles: a response with its status and, when
    [response.json()] succeeds, its parsed body; or a rejection. *)
Inductive Fetched (Body : Type) : Type :=
| Responded (status : Z) (body : option Body)
| Rejected.

Arguments Responded {Body} status body.
Arguments Rejected {Body}.

(** [response.ok]. *)
Definition status_ok (status : Z) : bool :=
  ((200 <=? status) && (status <=? 299))%Z.

(** The component state and the browser of Part I, with the state cells
    of the search and the requests of the two handlers that have not
    settled; a route request carries the [result] it was made for. *)
Record Page : Type := mkPage {
  system : System;
  distanceUnit : DistanceUnit;
  selectedAmenity : option AmenityId;
  searchResults : list SearchResult.t;
  selectedDestination : option SearchResult.t;
  pendingSearches : nat;
  pendingRoutes : list SearchResult.t
}.

Definition with_system (sys : System) (p : Page) : Page :=
  mkPage sys (distanceUnit p) (selectedAmenity p) (searchResults p)
         (selectedDestination p) (pendingSearches p) (pendingRoutes p).

Definition page_app (p : Page) : AppState := app (system p).

(** A state setter of Part I applied to the page. *)
Definition update_app (f : AppState -> AppState) (p : Page) : Page :=
  with_system (with_app (f (page_app p)) (system p)) p.

(** [handleAmenitySelect(amenityId)], up to its [fetch]. *)
Definition handleAmenitySelect (amenityId : AmenityId) (p : Page) : Page :=
  match location (page_app p) with
  | None => p
  | Some _ =>
      let p := update_app (setView searching) p in
      mkPage (system p) (distanceUnit p) (Some amenityId) (searchResults p)
             (selectedDestination p) (S (pendingSearches p)) (pendingRoutes p)
  end.

(** [handleAmenitySelect], once its [fetch] has settled. *)
Definition handleAmenitySelect_settled
  (response : Fetched SearchData.t) (p : Page) : Page :=
  match response with
  | Responded status body =>
      if (status =? 429)%Z then update_app (setView rate_limited) p
      else if negb (status_ok status) then update_app (setView network_error) p
      else match body with
           | None => update_app (setView network_error) p
           | Some data =>
               if (SearchData.count data =? 0)%Z
               then update_app (setView no_results) p
               else
                 let p := update_app (setView results) p in
                 mkPage (system p) (distanceUnit p) (selectedAmenity p)
                        (SearchData.results data) (selectedDestination p)
                        (pendingSearches p) (pendingRoutes p)
           end
  | Rejected => update_app (setView network_error) p
  end.

(** [handleDestinationSelect(result)], up to its [fetch]. *)
Definition handleDestinationSelect (result : SearchResult.t) (p : Page) : Page :=
  match location (page_app p) with
  | None => p
  | Some _ =>
      let p := update_app (setView searching) p in
      mkPage (system p) (distanceUnit p) (selectedAmenity p) (searchResults p)
             (Some result) (pendingSearches p) (pendingRoutes p ++ [result])
  end.

(** [handleDestinationSelect(result)], once its [fetch] has settled: an ok
    response with a parsed route installs it and starts the watch, which
    is the [RouteLoaded] event of Part I. *)
Definition handleDestinationSelect_settled
  (result : SearchResult.t) (response : Fetched Route.t) (p : Page) : Page :=
  match response with
  | Responded status body =>
      if (status =? 429)%Z then update_app (setView rate_limited) p
      else if negb (status_ok status) then update_app (setView network_error) p
      else match body with
           | None => update_app (setView network_error) p
           | Some routeData =>
               with_system (fst (step (RouteLoaded result routeData) (system p))) p
           end
  | Rejected => update_app (setView network_error) p
  end.

(** [goBack], with all the cells it resets. *)
Definition page_goBack (p : Page) : Page :=
  mkPage (goBack (system p)) (distanceUnit p) None [] None
         (pendingSearches p) (pendingRoutes p).

(** What happens to the page. *)
Inductive PageEvent : Type :=
| LocationAcquired (latitude longitude : R)
| LocationFailed
| BackendFailed
| RetryLocation
| AmenitySelected (amenityId : AmenityId)
| SearchSettled (response : Fetched SearchData.t)
| DestinationSelected (result : SearchResult.t)
| RouteSettled (response : Fetched Route.t)
| PositionFix (watchId : nat) (latitude longitude : R) (now : Z)
| RecalculationSettled (response : RouteResponse)
| BackClicked
| SettingsOpened
| SettingsClosed
| UnitChosen (unit : DistanceUnit).

(** One event of the page. [LocationAcquired] and [LocationFailed] are the
    callbacks of [getCurrentPosition] in [initialize] and [retryLocation]
    (a browser without geolocation has the effect of [LocationFailed]),
    [BackendFailed] the failed health check; a request that settles is
    the oldest one pending. *)
Definition page_step (ev : PageEvent) (p : Page) : Page :=
  match ev with
  | LocationAcquired latitude longitude =>
      update_app (fun s => setView grid
                             (setLocation
                                (Some (Location.mk latitude longitude)) s)) p
  | LocationFailed => update_app (setView location_error) p
  | BackendFailed => update_app (setView network_error) p
  | RetryLocation => update_app (setView loading) p
  | AmenitySelected amenityId => handleAmenitySelect amenityId p
  | SearchSettled response =>
      match pendingSearches p with
      | S n =>
          handleAmenitySelect_settled response
            (mkPage (system p) (distanceUnit p) (selectedAmenity p)
                    (searchResults p) (selectedDestination p) n
                    (pendingRoutes p))
      | O => p
      end
  | DestinationSelected result => handleDestinationSelect result p
  | RouteSettled response =>
      match pendingRoutes p with
      | result :: rest =>
          handleDestinationSelect_settled result response
            (mkPage (system p) (distanceUnit p) (selectedAmenity p)
                    (searchResults p) (selectedDestination p)
                    (pendingSearches p) rest)
      | [] => p
      end
  | PositionFix watchId latitude longitude now =>
      with_system (fst (step (Position watchId latitude longitude now)
                             (system p))) p
  | RecalculationSettled response =>
      with_system (fst (step (RecalcSettled response) (system p))) p
  | BackClicked => page_goBack p
  | SettingsOpened => update_app (setView settings) p
  | SettingsClosed => update_app (setView grid) p
  | UnitChosen unit =>
      mkPage (system p) unit (selectedAmenity p) (searchResults p)
             (selectedDestination p) (pendingSearches p) (pendingRoutes p)
  end.

Definition page_run (evs : list PageEvent) (p : Page) : Page :=
  fold_left (fun q ev => page_step ev q) evs p.

(** The page when the component mounts. *)
Definition initialPage (saved : option string) : Page :=
  mkPage (mkSystem (mkAppState loading None None 0 None 0) [] 0 [])
         (initialDistanceUnit saved) None [] None 0 [].

(** The views of the render, in the order it tests them. *)
Inductive Screen : Type :=
| LoadingScreen | LocationErrorScreen | NetworkErrorScreen
| RateLimitedScreen | SearchingScreen | NoResultsScreen | SettingsScreen
| ArrivedScreen | ResultsMap | NavigationView | GridScreen.

Definition render (p : Page) : Screen :=
  match view (page_app p) with
  | loading => LoadingScreen
  | location_error => LocationErrorScreen
  | network_error => NetworkErrorScreen
  | rate_limited => RateLimitedScreen
  | searching | recalculating => SearchingScreen
  | no_results => NoResultsScreen
  | settings => SettingsScreen
  | arrived => ArrivedScreen
  | results =>
      match location (page_app p), searchResults p with
      | Some _, _ :: _ => ResultsMap
      | _, _ => GridScreen
      end
  | navigating =>
      match location (page_app p), route (page_app p),
            selectedDestination p with
      | Some _, Some _, Some _ => NavigationView
      | _, _, _ => GridScreen
      end
  | grid => GridScreen
  end.

(** ** Notions used in the further statements *)

(** A request has failed: a status that is not ok, a body that does not
    parse, or a rejection. *)
Definition failed {Body : Type} (response : Fetched Body) : bool :=
  match response with
  | Responded status body =>
      negb (status_ok status) ||
      match body with
      | Some _ => false
      | None => true
      end
  | Rejected => true
  end.

(** The view a failed request leaves. *)
Definition failure_view {Body : Type} (response : Fetched Body) : AppView :=
  match response with
  | Responded status _ =>
      if (status =? 429)%Z then rate_limited else network_error
  | Rejected => network_error
  end.

(** The times ([now]) of the position events of a run that issued a route
    request, in order. *)
Fixpoint requestTimes (evs : list Event) (sys : System) : list Z :=
  match evs with
  | [] => []
  | ev :: rest =>
      (match ev with
       | Position _ _ _ now =>
           if (0 <? requests (snd (step ev sys)))%nat then [now] else []
       | _ => []
       end) ++ requestTimes rest (fst (step ev sys))
  end.

(** Each time is more than 10 s after the one before, [previous] first. *)
Fixpoint spaced (previous : Z) (times : list Z) : Prop :=
  match times with
  | [] => True
  | t :: rest => (t - previous > 10000)%Z /\ spaced t rest
  end.

(** Whenever one of the two views without a button is up, a request that
    will replace it is pending. *)
Definition spinner_inv (p : Page) : Prop :=
  (view (page_app p) = recalculating -> pending (system p) <> []) /\
  (view (page_app p) = searching ->
   (0 < pendingSearches p)%nat \/ pendingRoutes p <> []).

(** * Part I, continued: the distance functions in binary64

    [calculateDistance] and [findNearestDistanceToRoute] once more, on the
    numbers the program computes with: IEEE 754 binary64, every operation
    rounding to nearest, with signed zeros, infinities and [NaN] (the
    primitive floats of the library). [+], [-], [*], [/], [<] and
    [Math.sqrt] are the IEEE operations. The language leaves [Math.sin],
    [Math.cos], [Math.atan2] and [**] to the engine, which approximates
    them; they are parameters of the functions, an [Engine]. *)

Module Binary64.

Local Open Scope float_scope.

Module Location.
Record t : Type := mk { lat : float; lng : float }.
End Location.

Record Engine : Type := mkEngine {
  Math_sin : float -> float;
  Math_cos : float -> float;
  Math_atan2 : float -> float -> float;
  (** [base ** exponent] *)
  exponentiate : float -> float -> float
}.

(** [Math.PI], the binary64 number nearest to pi. *)
Definition Math_PI : float := 0x1.921fb54442d18p+1.

Definition Math_sqrt (x : float) : float := PrimFloat.sqrt x.

(** [calculateDistance(lat1, lng1, lat2, lng2)]. *)
Definition calculateDistance
  (E : Engine) (lat1 lng1 lat2 lng2 : float) : float :=
  let R0 := 6371000 in
  let dLat := (lat2 - lat1) * Math_PI / 180 in
  let dLng := (lng2 - lng1) * Math_PI / 180 in
  let a := exponentiate E (Math_sin E (dLat / 2)) 2 +
           Math_cos E (lat1 * Math_PI / 180) *
           Math_cos E (lat2 * Math_PI / 180) *
           exponentiate E (Math_sin E (dLng / 2)) 2 in
  let c := 2 * Math_atan2 E (Math_sqrt a) (Math_sqrt (1 - a)) in
  R0 * c.

(** The term [a] of [calculateDistance], named for the proofs. *)
Definition haversine_a (E : Engine) (lat1 lng1 lat2 lng2 : float) : float :=
  exponentiate E (Math_sin E ((lat2 - lat1) * Math_PI / 180 / 2)) 2 +
  Math_cos E (lat1 * Math_PI / 180) * Math_cos E (lat2 * Math_PI / 180) *
  exponentiate E (Math_sin E ((lng2 - lng1) * Math_PI / 180 / 2)) 2.

(** [findNearestDistanceToRoute(loc, coords)]; a coordinate is the pair
    [[lng, lat]]. *)
Definition findNearestDistanceToRoute
  (E : Engine) (loc : Location.t) (coords : list (float * float)) : float :=
  fold_left
    (fun minDist coord =>
       let dist := calculateDistance E (Location.lat loc) (Location.lng loc)
                                     (snd coord) (fst coord) in
       if dist <? minDist then dist else minDist)
    coords infinity.

(** The distances from [loc] to the vertices of [coords]. *)
Definition vertexDistances
  (E : Engine) (loc : Location.t) (coords : list (float * float))
  : list float :=
  map (fun coord => calculateDistance E (Location.lat loc) (Location.lng loc)
                                      (snd coord) (fst coord)) coords.


(** The sine of the engine is odd, and a square by [**] does not depend on
    the sign of its base. *)
Definition sin_odd (E : Engine) : Prop :=
  forall x, Math_sin E (- x) = - Math_sin E x.

Definition square_even (E : Engine) : Prop :=
  forall x, exponentiate E (- x) 2 = exponentiate E x 2.

(** ** An engine to evaluate the code on

    A table of the functions at the arguments that [calculateDistance]
    reaches between (-12, 0) and (12, 180), between (-12, 0) and (12, 0),
    and from a point to itself; each entry is the binary64 number nearest
    to the exact value. They are [sin 0 = 0] and [cos 0 = 1], the sine and
    the cosine of 12 degrees ([0x1.acee9f37bebd5p-3] radians) and of -12
    degrees, the sine of [Math.PI / 2], [atan2(0, x) = 0] for [x > 0], the
    arc tangent of the sine over the cosine of 12 degrees, and the square
    as the product. At every other argument the table holds [NaN]. *)
Definition sample_sin (x : float) : float :=
  if x =? 0 then x
  else if abs x =? 0x1.acee9f37bebd5p-3
       then (if x <? 0 then - 0x1.a9cd9ac4258f5p-3 else 0x1.a9cd9ac4258f5p-3)
  else if abs x =? 0x1.921fb54442d18p+0 then (if x <? 0 then - 1 else 1)
  else nan.

Definition sample_cos (x : float) : float :=
  if x =? 0 then 1
  else if abs x =? 0x1.acee9f37bebd5p-3 then 0x1.f4cfc327a008p-1
  else nan.

Definition sample_atan2 (y x : float) : float :=
  if is_nan y || is_nan x then nan
  else if (y =? 0) && (0 <? x) then y
  else if (y =? 0x1.a9cd9ac4258f5p-3) && (x =? 0x1.f4cfc327a008p-1)
       then 0x1.acee9f37bebd4p-3
  else nan.

Definition sample_exponentiate (base exponent : float) : float :=
  if exponent =? 2 then base * base else nan.

Definition sampleEngine : Engine :=
  mkEngine sample_sin sample_cos sample_atan2 sample_exponentiate.

End Binary64.

(** * Part II: properties *)

(** ** Comparisons *)

Lemma ltb_true (x y : R) : MathJs.ltb x y = true <-> x < y.
Proof.
  unfold MathJs.ltb; destruct (Rlt_dec x y); split; intros; auto; discriminate.
Qed.

Lemma ltb_false (x y : R) : MathJs.ltb x y = false <-> y <= x.
Proof.
  unfold MathJs.ltb; destruct (Rlt_dec x y); split; intros; auto;
    try discriminate; lra.
Qed.

Lemma number_gtb_Num (x y : R) : number_gtb (Num x) (Num y) = true <-> y < x.
Proof. unfold number_gtb; simpl. apply ltb_true. Qed.

Lemma number_gtb_Infinity (t : R) : number_gtb Infinity (Num t) = true.
Proof. reflexivity. Qed.

(** ** The Haversine distance, on real numbers *)

Lemma atan2_0_1 : MathJs.atan2 0 1 = 0.
Proof.
  unfold MathJs.atan2. destruct (Rlt_dec 0 1) as [_ | H]; [ | lra ].
  replace (0 / 1) with 0 by lra. apply atan_0.
Qed.

Lemma calculateDistance_unfold (lat1 lng1 lat2 lng2 : R) :
  calculateDistance lat1 lng1 lat2 lng2 =
  6371000 * (2 * MathJs.atan2 (sqrt (haversine_a lat1 lng1 lat2 lng2))
                              (sqrt (1 - haversine_a lat1 lng1 lat2 lng2))).
Proof. reflexivity. Qed.

Lemma sin_sqr_opp (x y : R) : y = - x -> sin y ^ 2 = sin x ^ 2.
Proof. intros ->. rewrite sin_neg. ring. Qed.

Lemma haversine_a_sym (lat1 lng1 lat2 lng2 : R) :
  haversine_a lat1 lng1 lat2 lng2 = haversine_a lat2 lng2 lat1 lng1.
Proof.
  unfold haversine_a.
  rewrite (sin_sqr_opp ((lat1 - lat2) * PI / 180 / 2)
                       ((lat2 - lat1) * PI / 180 / 2)) by lra.
  rewrite (sin_sqr_opp ((lng1 - lng2) * PI / 180 / 2)
                       ((lng2 - lng1) * PI / 180 / 2)) by lra.
  ring.
Qed.

Lemma haversine_a_self (lat lng : R) : haversine_a lat lng lat lng = 0.
Proof.
  unfold haversine_a.
  replace ((lat - lat) * PI / 180 / 2) with 0 by lra.
  replace ((lng - lng) * PI / 180 / 2) with 0 by lra.
  rewrite sin_0. ring.
Qed.

Lemma calculateDistance_sym (lat1 lng1 lat2 lng2 : R) :
  calculateDistance lat1 lng1 lat2 lng2 = calculateDistance lat2 lng2 lat1 lng1.
Proof.
  rewrite !calculateDistance_unfold.
  rewrite (haversine_a_sym lat1 lng1 lat2 lng2). reflexivity.
Qed.

Lemma calculateDistance_self (lat lng : R) :
  calculateDistance lat lng lat lng = 0.
Proof.
  rewrite calculateDistance_unfold, haversine_a_self.
  rewrite sqrt_0. replace (1 - 0) with 1 by ring. rewrite sqrt_1.
  rewrite atan2_0_1. ring.
Qed.

(** *** Distances along a meridian

    For two points of the same longitude the formula gives the arc length;
    this is how [calculateDistance] is evaluated on the sample route. *)

Lemma haversine_a_meridian (lat1 lat2 lng : R) :
  haversine_a lat1 lng lat2 lng = sin ((lat2 - lat1) * PI / 180 / 2) ^ 2.
Proof.
  unfold haversine_a.
  replace ((lng - lng) * PI / 180 / 2) with 0 by lra.
  rewrite sin_0. ring.
Qed.

Lemma atan2_sin_cos (t : R) :
  0 <= t < PI / 2 ->
  MathJs.atan2 (sqrt (sin t ^ 2)) (sqrt (1 - sin t ^ 2)) = t.
Proof.
  intros [H0 H1].
  assert (Hc : 0 < cos t) by (apply cos_gt_0; lra).
  assert (Hs : 0 <= sin t) by (apply sin_ge_0; pose proof PI2_Rlt_PI; lra).
  assert (E : 1 - sin t ^ 2 = cos t ^ 2).
  { pose proof (sin2_cos2 t) as H. unfold Rsqr in H. nra. }
  rewrite E, !sqrt_pow2 by lra.
  unfold MathJs.atan2. destruct (Rlt_dec 0 (cos t)); [ | lra ].
  change (sin t / cos t) with (tan t). apply atan_tan. lra.
Qed.

Lemma calculateDistance_north (lat1 lat2 lng : R) :
  lat1 <= lat2 < lat1 + 180 ->
  calculateDistance lat1 lng lat2 lng = 6371000 * ((lat2 - lat1) * PI / 180).
Proof.
  intros H. rewrite calculateDistance_unfold, haversine_a_meridian.
  rewrite atan2_sin_cos; [ lra | ].
  pose proof PI_RGT_0. split; nra.
Qed.

Lemma calculateDistance_south (lat1 lat2 lng : R) :
  lat2 <= lat1 < lat2 + 180 ->
  calculateDistance lat1 lng lat2 lng = 6371000 * ((lat1 - lat2) * PI / 180).
Proof.
  intros H. rewrite calculateDistance_sym. apply calculateDistance_north, H.
Qed.

Lemma PI_gt_3 : 3 < PI.
Proof. pose proof PI2_3_2. lra. Qed.

(** Evaluate the distances between points of longitude 0 in the goal, then
    decide the comparisons with [3 < PI <= 4]. *)
Ltac meridian :=
  repeat match goal with
         | |- context [calculateDistance ?a ?l ?b ?l] =>
             first [ rewrite (calculateDistance_north a b l) by lra
                   | rewrite (calculateDistance_south a b l) by lra ]
         end.

Ltac compare :=
  pose proof PI_gt_3; pose proof PI_4;
  repeat match goal with
         | |- context [Rlt_dec ?x ?y] =>
             destruct (Rlt_dec x y); try (exfalso; lra)
         end.

Ltac evaluate :=
  simpl; meridian; unfold MathJs.ltb; compare; simpl.

(** ** The nearest vertex *)

Lemma findNearestDistanceToRoute_nil (loc : Location.t) :
  findNearestDistanceToRoute loc [] = Infinity.
Proof. reflexivity. Qed.

Lemma findNearestDistanceToRoute_snoc
  (loc : Location.t) (coords : list (R * R)) (coord : R * R) :
  findNearestDistanceToRoute loc (coords ++ [coord]) =
  let dist := calculateDistance (Location.lat loc) (Location.lng loc)
                                (snd coord) (fst coord) in
  if number_ltb (Num dist) (findNearestDistanceToRoute loc coords)
  then Num dist
  else findNearestDistanceToRoute loc coords.
Proof.
  unfold findNearestDistanceToRoute. rewrite fold_left_app. reflexivity.
Qed.

Lemma vertexDistances_snoc
  (loc : Location.t) (coords : list (R * R)) (coord : R * R) :
  vertexDistances loc (coords ++ [coord]) =
  vertexDistances loc coords ++
  [calculateDistance (Location.lat loc) (Location.lng loc)
                     (snd coord) (fst coord)].
Proof. unfold vertexDistances. rewrite map_app. reflexivity. Qed.

(** The result is [Infinity] on the empty list only, and otherwise a least
    element of the vertex distances. *)
Lemma findNearestDistanceToRoute_min (loc : Location.t) (coords : list (R * R)) :
  match findNearestDistanceToRoute loc coords with
  | Infinity => coords = []
  | Num m =>
      In m (vertexDistances loc coords) /\
      forall d, In d (vertexDistances loc coords) -> m <= d
  end.
Proof.
  induction coords as [ | coord coords IH ] using rev_ind.
  - reflexivity.
  - rewrite findNearestDistanceToRoute_snoc, vertexDistances_snoc. cbv zeta.
    set (dist := calculateDistance _ _ _ _).
    destruct (findNearestDistanceToRoute loc coords) as [ m | ].
    + destruct IH as [Hin Hmin]. simpl number_ltb.
      destruct (MathJs.ltb dist m) eqn:E.
      * apply ltb_true in E. split.
        -- apply in_or_app. right. left. reflexivity.
        -- intros d Hd. apply in_app_or in Hd. destruct Hd as [Hd | [<- | []]].
           ++ specialize (Hmin d Hd). lra.
           ++ lra.
      * apply ltb_false in E. split.
        -- apply in_or_app. left. exact Hin.
        -- intros d Hd. apply in_app_or in Hd. destruct Hd as [Hd | [<- | []]].
           ++ apply Hmin, Hd.
           ++ exact E.
    + subst coords. simpl. split.
      * left. reflexivity.
      * intros d [<- | []]. lra.
Qed.

(** A vertex of the route bounds the nearest distance from above. *)
Lemma findNearestDistanceToRoute_le
  (loc : Location.t) (coords : list (R * R)) (coord : R * R) :
  In coord coords ->
  exists m, findNearestDistanceToRoute loc coords = Num m /\
            m <= calculateDistance (Location.lat loc) (Location.lng loc)
                                   (snd coord) (fst coord).
Proof.
  intros Hin. pose proof (findNearestDistanceToRoute_min loc coords) as H.
  destruct (findNearestDistanceToRoute loc coords) as [ m | ].
  - exists m. split; [ reflexivity | ]. apply H.
    unfold vertexDistances.
    apply (in_map (fun c => calculateDistance (Location.lat loc)
                              (Location.lng loc) (snd c) (fst c))), Hin.
  - subst coords. destruct Hin.
Qed.

(** ** The position callback, case by case *)

Lemma array_get_In {A : Type} (arr : list A) (i : Z) (x : A) :
  array_get arr i = Some x -> In x arr.
Proof.
  unfold array_get. destruct (i <? 0)%Z; [ discriminate | ].
  apply nth_error_In.
Qed.

Lemma stepEndPoint_In (r : Route.t) (i : nat) (endCoord : R * R) :
  stepEndPoint r i = Some endCoord -> In endCoord (Route.coordinates r).
Proof.
  unfold stepEndPoint.
  destruct (nth_error (Route.steps r) i) as [ step | ]; [ | discriminate ].
  destruct (1 <? length (RouteStep.way_points step))%nat; [ | discriminate ].
  destruct (array_get (RouteStep.way_points step) _) as [ endIdx | ];
    [ | discriminate ].
  apply array_get_In.
Qed.

(** [stepUpdater] in terms of the end of the current step. *)
Lemma stepUpdater_stepEndPoint (r : Route.t) (loc : Location.t) (i : nat) :
  stepUpdater r loc i =
  match stepEndPoint r i with
  | Some endCoord =>
      if MathJs.ltb (calculateDistance (Location.lat loc) (Location.lng loc)
                                       (snd endCoord) (fst endCoord)) 6 &&
         (Z.of_nat i <? Z.of_nat (length (Route.steps r)) - 1)%Z
      then (i + 1)%nat
      else i
  | None => i
  end.
Proof.
  unfold stepUpdater, stepEndPoint.
  destruct (nth_error (Route.steps r) i) as [ step | ]; [ | reflexivity ].
  destruct (1 <? length (RouteStep.way_points step))%nat; [ | reflexivity ].
  destruct (array_get (RouteStep.way_points step) _) as [ endIdx | ];
    reflexivity.
Qed.

(** The updater moves the index by one exactly under the two conditions. *)
Lemma stepUpdater_advances (r : Route.t) (loc : Location.t) (i : nat) :
  stepUpdater r loc i = (i + 1)%nat <-> nearStepEnd r loc i /\ notLastStep r i.
Proof.
  rewrite stepUpdater_stepEndPoint. unfold nearStepEnd, notLastStep.
  destruct (stepEndPoint r i) as [ endCoord | ].
  - destruct (MathJs.ltb _ 6) eqn:E1; simpl.
    + apply ltb_true in E1.
      destruct (Z.of_nat i <? Z.of_nat (length (Route.steps r)) - 1)%Z eqn:E2.
      * apply Z.ltb_lt in E2. split; [ | reflexivity ].
        intros _. split; [ exists endCoord; auto | exact E2 ].
      * apply Z.ltb_ge in E2. split; [ lia | ]. intros [_ H]. lia.
    + apply ltb_false in E1. split; [ lia | ].
      intros [[c [Hc Hd]] _]. injection Hc as <-. lra.
  - split; [ lia | ]. intros [[c [Hc _]] _]. discriminate.
Qed.

Lemma stepUpdater_stays (r : Route.t) (loc : Location.t) (i : nat) :
  ~ (nearStepEnd r loc i /\ notLastStep r i) -> stepUpdater r loc i = i.
Proof.
  intros H. rewrite stepUpdater_stepEndPoint.
  destruct (stepEndPoint r i) as [ endCoord | ] eqn:E; [ | reflexivity ].
  destruct (MathJs.ltb _ 6 && _) eqn:E1; [ | reflexivity ].
  exfalso. apply H. apply stepUpdater_advances.
  rewrite stepUpdater_stepEndPoint, E, E1. reflexivity.
Qed.

Lemma stepUpdater_cases (r : Route.t) (loc : Location.t) (i : nat) :
  stepUpdater r loc i = i \/ stepUpdater r loc i = (i + 1)%nat.
Proof.
  rewrite stepUpdater_stepEndPoint.
  destruct (stepEndPoint r i); [ | auto ].
  destruct (MathJs.ltb _ 6 && _); auto.
Qed.

(** Near the end of a step the position is not off the route: the end of a
    step is a vertex of the route. *)
Lemma nearStepEnd_on_route (r : Route.t) (loc : Location.t) (i : nat) :
  nearStepEnd r loc i -> offRouteTest r loc = false.
Proof.
  intros [endCoord [He Hd]]. unfold offRouteTest.
  destruct (findNearestDistanceToRoute_le loc (Route.coordinates r) endCoord
              (stepEndPoint_In r i endCoord He)) as [m [-> Hm]].
  unfold number_gtb. simpl. apply ltb_false. lra.
Qed.

Section Callback.

Variables (destination : SearchResult.t) (currentRoute : Route.t).
Variables (latitude longitude : R) (now : Z) (s : AppState).

Let newLoc := Location.mk latitude longitude.

(** The body of the callback with its tests named. *)
Lemma positionCallback_unfold :
  positionCallback destination currentRoute latitude longitude now s =
  if arrivalTest destination newLoc then
    match watchIdRef s with
    | Some watchId =>
        (setView arrived (set_watchIdRef None (setLocation (Some newLoc) s)),
         [ClearWatch watchId])
    | None => (setView arrived (setLocation (Some newLoc) s), [])
    end
  else
    let s1 := setCurrentStepIndex (stepUpdater currentRoute newLoc)
                (setLocation (Some newLoc) s) in
    if offRouteTest currentRoute newLoc then
      if (now - lastRecalcTimeRef s >? 10000)%Z then
        (setView recalculating (set_lastRecalcTimeRef now s1),
         [FetchRoute newLoc destination])
      else (s1, [])
    else (s1, []).
Proof. reflexivity. Qed.

Lemma positionCallback_arrived :
  arrivalTest destination newLoc = true ->
  positionCallback destination currentRoute latitude longitude now s =
  match watchIdRef s with
  | Some watchId =>
      (setView arrived (set_watchIdRef None (setLocation (Some newLoc) s)),
       [ClearWatch watchId])
  | None => (setView arrived (setLocation (Some newLoc) s), [])
  end.
Proof. intros H. rewrite positionCallback_unfold, H. reflexivity. Qed.

Lemma positionCallback_on_route :
  arrivalTest destination newLoc = false ->
  offRouteTest currentRoute newLoc = false ->
  positionCallback destination currentRoute latitude longitude now s =
  (setCurrentStepIndex (stepUpdater currentRoute newLoc)
     (setLocation (Some newLoc) s), []).
Proof.
  intros HA HO. rewrite positionCallback_unfold, HA. cbv zeta.
  rewrite HO. reflexivity.
Qed.

Lemma positionCallback_debounced :
  arrivalTest destination newLoc = false ->
  offRouteTest currentRoute newLoc = true ->
  (now - lastRecalcTimeRef s <= 10000)%Z ->
  positionCallback destination currentRoute latitude longitude now s =
  (setCurrentStepIndex (stepUpdater currentRoute newLoc)
     (setLocation (Some newLoc) s), []).
Proof.
  intros HA HO H. rewrite positionCallback_unfold, HA. cbv zeta. rewrite HO.
  destruct (now - lastRecalcTimeRef s >? 10000)%Z eqn:E; [ | reflexivity ].
  apply Z.gtb_lt in E. lia.
Qed.

Lemma positionCallback_recalculates :
  arrivalTest destination newLoc = false ->
  offRouteTest currentRoute newLoc = true ->
  (now - lastRecalcTimeRef s > 10000)%Z ->
  positionCallback destination currentRoute latitude longitude now s =
  (setView recalculating
     (set_lastRecalcTimeRef now
        (setCurrentStepIndex (stepUpdater currentRoute newLoc)
           (setLocation (Some newLoc) s))),
   [FetchRoute newLoc destination]).
Proof.
  intros HA HO H. rewrite positionCallback_unfold, HA. cbv zeta. rewrite HO.
  destruct (now - lastRecalcTimeRef s >? 10000)%Z eqn:E; [ reflexivity | ].
  rewrite Z.gtb_ltb in E. apply Z.ltb_ge in E. lia.
Qed.

(** The call by its outcome. *)
Lemma positionCallback_outcome :
  positionCallback destination currentRoute latitude longitude now s =
  match outcome destination currentRoute newLoc now s with
  | Arrived =>
      match watchIdRef s with
      | Some watchId =>
          (setView arrived (set_watchIdRef None (setLocation (Some newLoc) s)),
           [ClearWatch watchId])
      | None => (setView arrived (setLocation (Some newLoc) s), [])
      end
  | Recalculating =>
      (setView recalculating
         (set_lastRecalcTimeRef now
            (setCurrentStepIndex (stepUpdater currentRoute newLoc)
               (setLocation (Some newLoc) s))),
       [FetchRoute newLoc destination])
  | Tracked =>
      (setCurrentStepIndex (stepUpdater currentRoute newLoc)
         (setLocation (Some newLoc) s), [])
  end.
Proof.
  rewrite positionCallback_unfold. unfold outcome.
  destruct (arrivalTest destination newLoc); [ reflexivity | ]. cbv zeta.
  destruct (offRouteTest currentRoute newLoc); [ | reflexivity ].
  destruct (now - lastRecalcTimeRef s >? 10000)%Z; reflexivity.
Qed.

(** One route request when the call recalculates, none otherwise. *)
Lemma positionCallback_requests :
  requests (snd (positionCallback destination currentRoute
                                  latitude longitude now s)) =
  match outcome destination currentRoute newLoc now s with
  | Recalculating => 1%nat
  | _ => 0%nat
  end.
Proof.
  rewrite positionCallback_outcome.
  destruct (outcome destination currentRoute newLoc now s); try reflexivity.
  destruct (watchIdRef s); reflexivity.
Qed.

(** The index after a call. *)
Lemma positionCallback_index :
  currentStepIndex (fst (positionCallback destination currentRoute
                                          latitude longitude now s)) =
  if arrivalTest destination newLoc then currentStepIndex s
  else stepUpdater currentRoute newLoc (currentStepIndex s).
Proof.
  rewrite positionCallback_outcome. unfold outcome.
  destruct (arrivalTest destination newLoc).
  - destruct (watchIdRef s); reflexivity.
  - destruct (offRouteTest currentRoute newLoc && _); reflexivity.
Qed.

(** A call never touches the installed route. *)
Lemma positionCallback_route :
  route (fst (positionCallback destination currentRoute
                               latitude longitude now s)) = route s.
Proof.
  rewrite positionCallback_outcome.
  destruct (outcome destination currentRoute newLoc now s); try reflexivity.
  destruct (watchIdRef s); reflexivity.
Qed.

End Callback.

(** ** The sample route, evaluated *)

Section SampleFacts.

Import Sample.

(** 111 m south of the start of the route. *)
Let south := Location.mk (-0.001) 0.
(** 22 m south of the start of the route. *)
Let nearSouth := Location.mk (-0.0002) 0.
(** The last vertex of the route, where [pub] is. *)
Let atPub := Location.mk 0.002 0.
(** 111 m past the last vertex, where [cafe] is. *)
Let atCafe := Location.mk 0.003 0.

Lemma nearest_south :
  findNearestDistanceToRoute south coords =
  Num (6371000 * ((0 - -0.001) * PI / 180)).
Proof.
  unfold findNearestDistanceToRoute, south, coords. evaluate. reflexivity.
Qed.

Lemma nearest_nearSouth :
  findNearestDistanceToRoute nearSouth coords =
  Num (6371000 * ((0 - -0.0002) * PI / 180)).
Proof.
  unfold findNearestDistanceToRoute, nearSouth, coords. evaluate. reflexivity.
Qed.

Lemma south_not_arrived : arrivalTest pub south = false.
Proof. unfold arrivalTest, south, pub. evaluate. reflexivity. Qed.

Lemma south_off_route : offRouteTest route0 south = true.
Proof.
  unfold offRouteTest. change (Route.coordinates route0) with coords.
  rewrite nearest_south. apply number_gtb_Num.
  pose proof PI_gt_3. lra.
Qed.

Lemma nearSouth_not_arrived : arrivalTest pub nearSouth = false.
Proof. unfold arrivalTest, nearSouth, pub. evaluate. reflexivity. Qed.

Lemma nearSouth_on_route : offRouteTest route0 nearSouth = false.
Proof.
  unfold offRouteTest. change (Route.coordinates route0) with coords.
  rewrite nearest_nearSouth. unfold number_gtb. simpl. apply ltb_false.
  pose proof PI_4. lra.
Qed.

Lemma atPub_arrived : arrivalTest pub atPub = true.
Proof.
  unfold arrivalTest, atPub, pub. simpl. rewrite calculateDistance_self.
  apply ltb_true. lra.
Qed.

Lemma atCafe_arrived : arrivalTest cafe atCafe = true.
Proof.
  unfold arrivalTest, atCafe, cafe. simpl. rewrite calculateDistance_self.
  apply ltb_true. lra.
Qed.

Lemma stepEndPoint_route0_0 : stepEndPoint route0 0 = Some (0, 0.001).
Proof. reflexivity. Qed.

Lemma stepEndPoint_route0_1 : stepEndPoint route0 1 = Some (0, 0.002).
Proof. reflexivity. Qed.

Lemma stepEndPoint_route0_2 : stepEndPoint route0 2 = Some (0, 0.002).
Proof. reflexivity. Qed.

Lemma south_step_stays (i : nat) : stepUpdater route0 south i = i.
Proof.
  apply stepUpdater_stays. intros [[endCoord [He Hd]] _].
  pose proof PI_gt_3.
  destruct i as [ | [ | [ | i ] ] ];
    [ rewrite stepEndPoint_route0_0 in He
    | rewrite stepEndPoint_route0_1 in He
    | rewrite stepEndPoint_route0_2 in He
    | unfold stepEndPoint in He; simpl in He; destruct i; discriminate ];
    injection He as <-; revert Hd; unfold south; simpl; meridian; lra.
Qed.

Lemma nearSouth_step_stays : stepUpdater route0 nearSouth 0 = 0%nat.
Proof.
  apply stepUpdater_stays. intros [[endCoord [He Hd]] _].
  rewrite stepEndPoint_route0_0 in He. injection He as <-.
  revert Hd. unfold nearSouth. simpl. meridian. pose proof PI_gt_3. lra.
Qed.

Lemma atPub_near_end_of_step_1 : nearStepEnd route0 atPub 1.
Proof.
  exists (0, 0.002). split; [ reflexivity | ].
  unfold atPub. simpl. rewrite calculateDistance_self. lra.
Qed.

Lemma step_1_not_last : notLastStep route0 1.
Proof. unfold notLastStep. simpl. lia. Qed.

End SampleFacts.

(** ** Binary64: the order, the square root, the loop

    The comparison [<] of binary64 numbers through its specification on
    sign, exponent and mantissa. *)

Section Binary64Order.

Local Open Scope float_scope.













End Binary64Order.

Section Binary64Distance.

Local Open Scope float_scope.

Variable E : Binary64.Engine.

Lemma Binary64_calculateDistance_unfold (lat1 lng1 lat2 lng2 : float) :
  Binary64.calculateDistance E lat1 lng1 lat2 lng2 =
  6371000 *
  (2 * Binary64.Math_atan2 E
         (Binary64.Math_sqrt (Binary64.haversine_a E lat1 lng1 lat2 lng2))
         (Binary64.Math_sqrt
            (1 - Binary64.haversine_a E lat1 lng1 lat2 lng2))).
Proof. reflexivity. Qed.

Variables (loc : Binary64.Location.t).

Let dist (coord : float * float) : float :=
  Binary64.calculateDistance E (Binary64.Location.lat loc)
                             (Binary64.Location.lng loc)
                             (snd coord) (fst coord).



End Binary64Distance.


(** * The claims *)

(** ** Geometry *)





(** Vertices, not segments: half way between the first two vertices of the
    sample route, a point of the polyline itself, the result is the 55 m to
    either vertex, and the point counts as off the route. *)
Lemma findNearestDistanceToRoute_between_vertices :
  findNearestDistanceToRoute (Location.mk 0.0005 0) Sample.coords =
  Num (6371000 * ((0.0005 - 0) * PI / 180)) /\
  offRouteTest Sample.route0 (Location.mk 0.0005 0) = true.
Proof.
  assert (E : findNearestDistanceToRoute (Location.mk 0.0005 0) Sample.coords =
              Num (6371000 * ((0.0005 - 0) * PI / 180))).
  { unfold findNearestDistanceToRoute, Sample.coords. evaluate. reflexivity. }
  split; [ exact E | ].
  unfold offRouteTest. change (Route.coordinates Sample.route0) with Sample.coords.
  rewrite E. apply number_gtb_Num. pose proof PI_gt_3. lra.
Qed.

(** C10: on an empty coordinate list [findNearestDistanceToRoute] returns
    [Infinity]; [Infinity] exceeds every finite threshold, so every
    position is off the route of a polyline without vertices: a fix that
    is no arrival requests a recalculation whenever the debounce allows
    one. *)
Theorem findNearestDistanceToRoute_empty :
  (forall loc, findNearestDistanceToRoute loc [] = Infinity) /\
  (forall t, number_gtb Infinity (Num t) = true) /\
  (forall loc distance duration steps,
      offRouteTest (Route.mk distance duration [] steps) loc = true) /\
  (forall destination distance duration steps latitude longitude now s,
      arrivalTest destination (Location.mk latitude longitude) = false ->
      requests (snd (positionCallback destination
                       (Route.mk distance duration [] steps)
                       latitude longitude now s)) =
      (if (now - lastRecalcTimeRef s >? 10000)%Z then 1%nat else 0%nat)).
Proof.
  split; [ reflexivity | ]. split; [ reflexivity | ].
  split; [ reflexivity | ].
  intros destination distance duration steps latitude longitude now s HA.
  rewrite positionCallback_requests. unfold outcome. rewrite HA.
  change (offRouteTest (Route.mk distance duration [] steps)
                       (Location.mk latitude longitude)) with true.
  simpl. destruct (now - lastRecalcTimeRef s >? 10000)%Z; reflexivity.
Qed.

(** A route without coordinates in the sample session. *)
Lemma findNearestDistanceToRoute_empty_witness :
  requests (snd (positionCallback Sample.pub
                   (Route.mk 0 0 [] Sample.steps) (-0.001) 0 Sample.t0
                   Sample.navigating0)) = 1%nat.
Proof.
  destruct findNearestDistanceToRoute_empty as [_ [_ [_ H]]].
  apply (H Sample.pub 0 0 Sample.steps (-0.001) 0 Sample.t0
           Sample.navigating0 south_not_arrived).
Defined.

(** ** Recalculation *)

(** An off-route evaluation requests a route exactly when the debounce has
    run out, and stamps [lastRecalcTimeRef] only then. *)
Lemma off_route_evaluation
  (destination : SearchResult.t) (currentRoute : Route.t)
  (latitude longitude : R) (now : Z) (s : AppState) :
  arrivalTest destination (Location.mk latitude longitude) = false ->
  offRouteTest currentRoute (Location.mk latitude longitude) = true ->
  let result := positionCallback destination currentRoute
                                 latitude longitude now s in
  (requests (snd result) = 1%nat <-> (now - lastRecalcTimeRef s > 10000)%Z) /\
  (requests (snd result) = 0%nat <-> (now - lastRecalcTimeRef s <= 10000)%Z) /\
  lastRecalcTimeRef (fst result) =
  (if (now - lastRecalcTimeRef s >? 10000)%Z then now else lastRecalcTimeRef s).
Proof.
  intros HA HO result. subst result.
  destruct (now - lastRecalcTimeRef s >? 10000)%Z eqn:E.
  - apply Z.gtb_lt in E.
    rewrite positionCallback_recalculates by (auto; lia). simpl.
    repeat split; intros; try reflexivity; try lia; discriminate.
  - rewrite Z.gtb_ltb in E. apply Z.ltb_ge in E.
    rewrite positionCallback_debounced by (auto; lia). simpl.
    repeat split; intros; try reflexivity; try lia; discriminate.
Qed.

(** C1 (as the code has it): a recalculation request is issued on an
    off-route evaluation if and only if more than RECALC_DEBOUNCE (10 s),
    strictly, separates [now] from [lastRecalcTimeRef], which is 0 until a
    recalculation is requested and the time of the last request after;
    [lastRecalcTimeRef] is set to [now] exactly when the request is issued.
    In particular, of two off-route evaluations [gap] ms apart the first of
    which issues a request, the second issues none when [gap <= 10000]
    (one request in all, as for 5 s) and one when [gap > 10000] (two in
    all, as for 11 s). *)
Theorem recalculation_debounce :
  (forall destination currentRoute latitude longitude now s,
      arrivalTest destination (Location.mk latitude longitude) = false ->
      offRouteTest currentRoute (Location.mk latitude longitude) = true ->
      let result := positionCallback destination currentRoute
                                     latitude longitude now s in
      (requests (snd result) = 1%nat
       <-> (now - lastRecalcTimeRef s > 10000)%Z) /\
      (requests (snd result) = 0%nat
       <-> (now - lastRecalcTimeRef s <= 10000)%Z) /\
      lastRecalcTimeRef (fst result) =
      (if (now - lastRecalcTimeRef s >? 10000)%Z
       then now else lastRecalcTimeRef s)) /\
  (forall destination currentRoute lat1 lng1 lat2 lng2 t gap s,
      arrivalTest destination (Location.mk lat1 lng1) = false ->
      offRouteTest currentRoute (Location.mk lat1 lng1) = true ->
      arrivalTest destination (Location.mk lat2 lng2) = false ->
      offRouteTest currentRoute (Location.mk lat2 lng2) = true ->
      (t - lastRecalcTimeRef s > 10000)%Z ->
      let first := positionCallback destination currentRoute lat1 lng1 t s in
      let second := positionCallback destination currentRoute lat2 lng2
                                     (t + gap) (fst first) in
      requests (snd first) = 1%nat /\
      requests (snd first ++ snd second) =
      (if (gap >? 10000)%Z then 2%nat else 1%nat)).
Proof.
  split.
  - exact off_route_evaluation.
  - intros destination currentRoute lat1 lng1 lat2 lng2 t gap s
           HA1 HO1 HA2 HO2 Ht first second.
    destruct (off_route_evaluation destination currentRoute lat1 lng1 t s
                HA1 HO1) as [H1 [_ Hlast]].
    fold first in H1, Hlast.
    assert (Hfirst : requests (snd first) = 1%nat) by (apply H1; exact Ht).
    split; [ exact Hfirst | ].
    assert (E : (t - lastRecalcTimeRef s >? 10000)%Z = true)
      by (apply Z.gtb_lt; lia).
    rewrite E in Hlast.
    destruct (off_route_evaluation destination currentRoute lat2 lng2
                (t + gap) (fst first) HA2 HO2) as [H2 [H3 _]].
    fold second in H2, H3. rewrite Hlast in H2, H3.
    unfold requests in *. rewrite filter_app, length_app, Hfirst.
    destruct (gap >? 10000)%Z eqn:G.
    + apply Z.gtb_lt in G. rewrite (proj2 H2) by lia. reflexivity.
    + rewrite Z.gtb_ltb in G. apply Z.ltb_ge in G.
      rewrite (proj2 H3) by lia. reflexivity.
Qed.

(** Two fixes 111 m south of the sample route, 5 s and 11 s apart. *)
Lemma recalculation_debounce_witness :
  let first := positionCallback Sample.pub Sample.route0 (-0.001) 0
                                Sample.t0 Sample.navigating0 in
  requests (snd first) = 1%nat /\
  requests (snd first ++
            snd (positionCallback Sample.pub Sample.route0 (-0.001) 0
                                  (Sample.t0 + 5000) (fst first))) = 1%nat /\
  requests (snd first ++
            snd (positionCallback Sample.pub Sample.route0 (-0.001) 0
                                  (Sample.t0 + 11000) (fst first))) = 2%nat.
Proof.
  destruct recalculation_debounce as [_ Htwo].
  assert (Ht : (Sample.t0 - lastRecalcTimeRef Sample.navigating0 > 10000)%Z)
    by (unfold Sample.t0; simpl; lia).
  pose proof (Htwo Sample.pub Sample.route0 (-0.001) 0 (-0.001) 0
                Sample.t0 5000%Z Sample.navigating0
                south_not_arrived south_off_route
                south_not_arrived south_off_route Ht) as [H1 H5].
  pose proof (Htwo Sample.pub Sample.route0 (-0.001) 0 (-0.001) 0
                Sample.t0 11000%Z Sample.navigating0
                south_not_arrived south_off_route
                south_not_arrived south_off_route Ht) as [_ H11].
  cbv zeta. split; [ exact H1 | ]. split; [ exact H5 | exact H11 ].
Defined.

(** C1, against the wording: exactly 10 s after a recalculation the
    debounce of the specification is open ([>=]), and the code issues no
    request ([>]). *)
Lemma recalculation_debounce_counterexample :
  Spec.debounceOpen (lastRecalcTimeRef Sample.recalculated0)
                    (Sample.t0 + 10000) /\
  requests (snd (positionCallback Sample.pub Sample.route0 (-0.001) 0
                                  (Sample.t0 + 10000)
                                  Sample.recalculated0)) = 0%nat /\
  ~ Spec.debounce_claim Sample.pub Sample.route0 (-0.001) 0
                        (Sample.t0 + 10000) Sample.recalculated0.
Proof.
  assert (Hopen : Spec.debounceOpen (lastRecalcTimeRef Sample.recalculated0)
                                    (Sample.t0 + 10000)).
  { right. unfold Spec.RECALC_DEBOUNCE. simpl. lia. }
  assert (Hnone : requests
                    (snd (positionCallback Sample.pub Sample.route0 (-0.001) 0
                            (Sample.t0 + 10000) Sample.recalculated0)) = 0%nat).
  { rewrite positionCallback_debounced;
      [ reflexivity | exact south_not_arrived | exact south_off_route | ].
    simpl. lia. }
  split; [ exact Hopen | ]. split; [ exact Hnone | ].
  intros Hclaim.
  pose proof (Hclaim south_not_arrived south_off_route) as [_ H].
  specialize (H Hopen). rewrite Hnone in H. discriminate.
Qed.

(** ** The page and the browser, event by event *)

Lemma step_Position_found
  (sys : System) (watchId : nat) (w : Watch) (latitude longitude : R) (now : Z) :
  find_watch watchId (watches sys) = Some w ->
  step (Position watchId latitude longitude now) sys =
  (fold_left perform
     (snd (positionCallback (watch_destination w) (watch_route w)
                            latitude longitude now (app sys)))
     (with_app (fst (positionCallback (watch_destination w) (watch_route w)
                                      latitude longitude now (app sys))) sys),
   snd (positionCallback (watch_destination w) (watch_route w)
                         latitude longitude now (app sys))).
Proof.
  intros H. unfold step. rewrite H.
  destruct (positionCallback _ _ _ _ _ _). reflexivity.
Qed.

Lemma step_Position_missing
  (sys : System) (watchId : nat) (latitude longitude : R) (now : Z) :
  find_watch watchId (watches sys) = None ->
  step (Position watchId latitude longitude now) sys = (sys, []).
Proof. intros H. unfold step. rewrite H. reflexivity. Qed.

Lemma app_fold_perform (effects : list Effect) (sys : System) :
  app (fold_left perform effects sys) = app sys.
Proof.
  revert sys. induction effects as [ | e effects IH ]; intros sys.
  - reflexivity.
  - simpl. rewrite IH. destruct e; reflexivity.
Qed.

(** The component state after a position event on a registered watch is
    the one the callback returns. *)
Lemma app_step_Position
  (sys : System) (watchId : nat) (w : Watch) (latitude longitude : R) (now : Z) :
  find_watch watchId (watches sys) = Some w ->
  app (fst (step (Position watchId latitude longitude now) sys)) =
  fst (positionCallback (watch_destination w) (watch_route w)
                        latitude longitude now (app sys)).
Proof.
  intros H. rewrite (step_Position_found _ _ _ _ _ _ H). simpl.
  rewrite app_fold_perform. reflexivity.
Qed.

(** What a position event does to the view and to the pending requests. *)
Lemma step_Position_view_pending
  (sys : System) (watchId : nat) (latitude longitude : R) (now : Z) :
  let sys' := fst (step (Position watchId latitude longitude now) sys) in
  (exists more, pending sys' = pending sys ++ more) /\
  (view (app sys') = view (app sys) \/
   view (app sys') = arrived \/
   (view (app sys') = recalculating /\ pending sys' <> [])).
Proof.
  intros sys'. subst sys'.
  destruct (find_watch watchId (watches sys)) as [ w | ] eqn:Hw.
  - rewrite (step_Position_found _ _ _ _ _ _ Hw).
    rewrite positionCallback_outcome.
    destruct (outcome _ _ _ now (app sys)).
    + destruct (watchIdRef (app sys)); simpl;
        (split; [ exists []; rewrite app_nil_r; reflexivity | auto ]).
    + simpl. split; [ eexists; reflexivity | ].
      right. right. split; [ reflexivity | ].
      destruct (pending sys); discriminate.
    + simpl. split; [ exists []; rewrite app_nil_r; reflexivity | auto ].
  - rewrite (step_Position_missing _ _ _ _ _ Hw). simpl.
    split; [ exists []; rewrite app_nil_r; reflexivity | auto ].
Qed.

Section SampleSession.

Import Sample.

Lemma session0_eq :
  session0 = mkSystem navigating0 [(0%nat, mkWatch pub route0)] 1 [].
Proof. reflexivity. Qed.

Lemma recalculating0_eq :
  recalculating0 =
  mkSystem (mkAppState recalculating (Some (Location.mk (-0.001) 0))
                       (Some route0) 0 (Some 0%nat) t0)
           [(0%nat, mkWatch pub route0)] 1
           [(Location.mk (-0.001) 0, pub)].
Proof.
  unfold recalculating0. rewrite session0_eq.
  rewrite (step_Position_found _ 0%nat (mkWatch pub route0)) by reflexivity.
  cbn [watch_destination watch_route app].
  rewrite positionCallback_recalculates;
    [ | exact south_not_arrived | exact south_off_route
      | unfold t0; simpl; lia ].
  unfold setView, set_lastRecalcTimeRef, setCurrentStepIndex, setLocation.
  cbn [view location route currentStepIndex watchIdRef lastRecalcTimeRef
       navigating0].
  rewrite south_step_stays. reflexivity.
Qed.

Lemma arrived0_eq :
  arrived0 =
  mkSystem (mkAppState arrived (Some (Location.mk 0.002 0))
                       (Some route0) 0 None t0)
           [] 1 [(Location.mk (-0.001) 0, pub)].
Proof.
  unfold arrived0. rewrite recalculating0_eq.
  rewrite (step_Position_found _ 0%nat (mkWatch pub route0)) by reflexivity.
  cbn [watch_destination watch_route app].
  rewrite positionCallback_arrived by exact atPub_arrived.
  reflexivity.
Qed.

(** The fix 111 m south of the route issues one request. *)
Lemma south_requests :
  requests (snd (step (Position 0 (-0.001) 0 t0) session0)) = 1%nat.
Proof.
  rewrite session0_eq.
  rewrite (step_Position_found _ 0%nat (mkWatch pub route0)) by reflexivity.
  cbn [watch_destination watch_route app snd].
  rewrite positionCallback_requests. unfold outcome.
  rewrite south_not_arrived, south_off_route. reflexivity.
Qed.

End SampleSession.

(** ** The recalculating view *)





(** ** Arrival *)

Lemma clearWatch_single (watchId : nat) (w : Watch) :
  clearWatch watchId [(watchId, w)] = [].
Proof. unfold clearWatch. simpl. rewrite Nat.eqb_refl. reflexivity. Qed.

Lemma find_watch_single (watchId other : nat) (w w' : Watch) :
  find_watch watchId [(other, w)] = Some w' -> other = watchId /\ w = w'.
Proof.
  simpl. destruct (Nat.eqb other watchId) eqn:E; [ | discriminate ].
  apply Nat.eqb_eq in E. intros H. injection H as <-. auto.
Qed.

Lemma watch_inv_initial (loc : option Location.t) : watch_inv (initialSystem loc).
Proof. reflexivity. Qed.

(** Every event keeps the invariant. *)
Lemma watch_inv_step (ev : Event) (sys : System) :
  watch_inv sys -> watch_inv (fst (step ev sys)).
Proof.
  unfold watch_inv. intros Hinv.
  destruct ev as [ result routeData | watchId latitude longitude now
                 | response | ].
  - simpl. destruct (watchIdRef (app sys)) as [ old | ].
    + destruct Hinv as [w [-> Hlt]]. rewrite clearWatch_single. simpl.
      eexists. split; [ reflexivity | lia ].
    + rewrite Hinv. simpl. eexists. split; [ reflexivity | lia ].
  - destruct (find_watch watchId (watches sys)) as [ w | ] eqn:Hw.
    + rewrite (step_Position_found _ _ _ _ _ _ Hw).
      rewrite positionCallback_outcome.
      destruct (outcome _ _ _ now (app sys)).
      * destruct (watchIdRef (app sys)) as [ current | ] eqn:Href.
        -- destruct Hinv as [w0 [Hws _]]. simpl. rewrite Hws.
           apply clearWatch_single.
        -- simpl. rewrite Href. exact Hinv.
      * simpl. exact Hinv.
      * simpl. exact Hinv.
    + rewrite (step_Position_missing _ _ _ _ _ Hw). exact Hinv.
  - simpl. destruct (pending sys) as [ | request rest ]; [ exact Hinv | ].
    simpl. destruct response; exact Hinv.
  - simpl. destruct (watchIdRef (app sys)) as [ old | ].
    + destruct Hinv as [w [-> _]]. apply clearWatch_single.
    + exact Hinv.
Qed.

(** Without a registered watch, position events change nothing and settled
    requests start nothing: no route request is issued and the step index
    never grows. *)
Lemma run_without_watch (evs : list Event) (sys : System) :
  watches sys = [] ->
  forallb is_position_or_settled evs = true ->
  watches (fst (run evs sys)) = [] /\
  snd (run evs sys) = [] /\
  (currentStepIndex (app (fst (run evs sys))) <= currentStepIndex (app sys))%nat /\
  (forallb is_position evs = true -> fst (run evs sys) = sys).
Proof.
  revert sys. induction evs as [ | ev evs IH ]; intros sys Hws Hevs.
  - simpl. auto.
  - simpl in Hevs. apply andb_prop in Hevs. destruct Hevs as [Hev Hevs].
    destruct ev as [ result routeData | watchId latitude longitude now
                   | response | ]; try discriminate.
    + simpl run. unfold step. rewrite Hws. simpl find_watch.
      destruct (IH sys Hws Hevs) as [H1 [H2 [H3 H4]]].
      destruct (run evs sys) as [sys2 effects2] eqn:R. simpl in *.
      repeat split; auto.
    + simpl run. unfold step.
      destruct (pending sys) as [ | request rest ] eqn:P.
      * destruct (IH sys Hws Hevs) as [H1 [H2 [H3 H4]]].
        destruct (run evs sys) as [sys2 effects2] eqn:R. simpl in *.
        repeat split; auto. intros; discriminate.
      * set (sys1 := mkSystem (recalculateRoute_settled response (app sys))
                              (watches sys) (nextWatchId sys) rest).
        destruct (IH sys1 Hws Hevs) as [H1 [H2 [H3 H4]]].
        destruct (run evs sys1) as [sys2 effects2] eqn:R. simpl in *.
        repeat split; auto; [ | intros; discriminate ].
        etransitivity; [ exact H3 | ].
        destruct response; simpl; lia.
Qed.

(** The arrival of a session: a fix within 20 m of the destination on the
    registered watch clears the watch. *)
Lemma step_arrival
  (sys : System) (watchId : nat) (w : Watch) (latitude longitude : R) (now : Z) :
  watch_inv sys ->
  find_watch watchId (watches sys) = Some w ->
  arrivalTest (watch_destination w) (Location.mk latitude longitude) = true ->
  step (Position watchId latitude longitude now) sys =
  (mkSystem (setView arrived
               (set_watchIdRef None
                  (setLocation (Some (Location.mk latitude longitude))
                               (app sys))))
            [] (nextWatchId sys) (pending sys),
   [ClearWatch watchId]).
Proof.
  intros Hinv Hw HA. rewrite (step_Position_found _ _ _ _ _ _ Hw).
  rewrite positionCallback_arrived by exact HA.
  unfold watch_inv in Hinv.
  destruct (watchIdRef (app sys)) as [ current | ].
  - destruct Hinv as [w0 [Hws _]]. rewrite Hws in Hw.
    apply find_watch_single in Hw. destruct Hw as [-> _].
    simpl. rewrite Hws, clearWatch_single. reflexivity.
  - rewrite Hinv in Hw. discriminate.
Qed.

(** C3 (as the code has it): arrival is terminal for position events. Once
    a fix within 20 m of the destination has set the view to [arrived],
    the watch is cleared; from then on no position event changes anything,
    however many arrive, and whatever recalculation responses settle in
    between, no route request is issued and the step index never advances.
    (A response still in flight at arrival is not discarded: the statement
    leaves out what it installs.) *)
Theorem arrival_is_terminal_for_position_events
  (sys : System) (watchId : nat) (w : Watch) (latitude longitude : R) (now : Z) :
  watch_inv sys ->
  find_watch watchId (watches sys) = Some w ->
  arrivalTest (watch_destination w) (Location.mk latitude longitude) = true ->
  let sys1 := fst (step (Position watchId latitude longitude now) sys) in
  view (app sys1) = arrived /\
  currentStepIndex (app sys1) = currentStepIndex (app sys) /\
  route (app sys1) = route (app sys) /\
  requests (snd (step (Position watchId latitude longitude now) sys)) = 0%nat /\
  watches sys1 = [] /\
  (forall evs, forallb is_position evs = true -> run evs sys1 = (sys1, [])) /\
  (forall evs, forallb is_position_or_settled evs = true ->
               requests (snd (run evs sys1)) = 0%nat /\
               (currentStepIndex (app (fst (run evs sys1)))
                <= currentStepIndex (app sys1))%nat).
Proof.
  intros Hinv Hw HA sys1. subst sys1.
  rewrite (step_arrival _ _ _ _ _ _ Hinv Hw HA). cbn [fst snd].
  set (sys1 := mkSystem _ [] _ _).
  repeat split; try reflexivity.
  - intros evs Hevs.
    assert (Hps : forallb is_position_or_settled evs = true).
    { rewrite forallb_forall in *. intros ev Hin.
      specialize (Hevs ev Hin). destruct ev; try discriminate; reflexivity. }
    destruct (run_without_watch evs sys1 eq_refl Hps) as [_ [H2 [_ H4]]].
    specialize (H4 Hevs).
    destruct (run evs sys1) as [sys2 effects2]. simpl in *. congruence.
  - destruct (run_without_watch evs sys1 eq_refl H) as [_ [H2 _]].
    rewrite H2. reflexivity.
  - destruct (run_without_watch evs sys1 eq_refl H) as [_ [_ [H3 _]]].
    exact H3.
Qed.

(** On the sample session: arrival at the pub, then two more fixes and the
    answer to the pending request. *)
Lemma arrival_is_terminal_for_position_events_witness :
  view (app Sample.arrived0) = arrived /\
  run [Position 0 0.002 0 (Sample.t0 + 2000);
       Position 0 (-0.001) 0 (Sample.t0 + 20000)] Sample.arrived0 =
  (Sample.arrived0, []) /\
  requests (snd (run [Position 0 (-0.001) 0 (Sample.t0 + 20000);
                      RecalcSettled (ResponseOk Sample.route1);
                      Position 0 (-0.001) 0 (Sample.t0 + 40000)]
                     Sample.arrived0)) = 0%nat.
Proof.
  assert (Hinv : watch_inv Sample.recalculating0).
  { rewrite recalculating0_eq. exists (mkWatch Sample.pub Sample.route0).
    split; [ reflexivity | simpl; lia ]. }
  assert (Hw : find_watch 0 (watches Sample.recalculating0) =
               Some (mkWatch Sample.pub Sample.route0)).
  { rewrite recalculating0_eq. reflexivity. }
  pose proof (arrival_is_terminal_for_position_events
                Sample.recalculating0 0%nat (mkWatch Sample.pub Sample.route0)
                0.002 0 (Sample.t0 + 1000)%Z Hinv Hw atPub_arrived)
    as [Hview [_ [_ [_ [_ [Hpos Hany]]]]]].
  fold Sample.arrived0 in Hview, Hpos, Hany.
  split; [ exact Hview | ].
  split; [ apply Hpos; reflexivity | apply Hany; reflexivity ].
Defined.

(** C3, against the wording: in the sample session the traveller arrives
    while a recalculation request is pending; when the request is answered
    its route is installed and the view goes back to [navigating]. *)
Lemma arrival_terminal_counterexample :
  view (app Sample.arrived0) = arrived /\
  route (app Sample.arrived0) = Some Sample.route0 /\
  route (app (fst (run [RecalcSettled (ResponseOk Sample.route1)]
                       Sample.arrived0))) = Some Sample.route1 /\
  view (app (fst (run [RecalcSettled (ResponseOk Sample.route1)]
                      Sample.arrived0))) = navigating /\
  ~ Spec.arrival_terminal_claim [RecalcSettled (ResponseOk Sample.route1)]
                                Sample.arrived0.
Proof.
  rewrite arrived0_eq.
  split; [ reflexivity | ]. split; [ reflexivity | ].
  split; [ reflexivity | ]. split; [ reflexivity | ].
  intros Hclaim. destruct (Hclaim eq_refl eq_refl) as [_ [_ H]].
  simpl in H.
  apply (f_equal (fun o => match o with
                           | Some r => length (Route.steps r)
                           | None => 0%nat
                           end)) in H.
  discriminate.
Qed.

(** ** The off-route threshold *)

(** C4: the off-route test of the code compares the nearest vertex
    distance with 30 m, not with a threshold of 5 to 10 m. At a fix 22 m
    south of the start of the sample route the nearest distance exceeds
    every threshold of 5 to 10 m, yet the fix is not off the route for the
    code and the callback, with no recalculation recorded, issues no
    request. *)
Theorem off_route_threshold_at_22m :
  (forall threshold,
      Spec.off_route_threshold threshold ->
      Spec.offRoute threshold Sample.route0 (Location.mk (-0.0002) 0) = true) /\
  offRouteTest Sample.route0 (Location.mk (-0.0002) 0) = false /\
  positionCallback Sample.pub Sample.route0 (-0.0002) 0 Sample.t0
                   Sample.navigating0 =
  (setLocation (Some (Location.mk (-0.0002) 0)) Sample.navigating0, []).
Proof.
  split; [ | split ].
  - intros threshold [_ Hmax]. unfold Spec.offRoute.
    change (Route.coordinates Sample.route0) with Sample.coords.
    rewrite nearest_nearSouth. apply number_gtb_Num.
    pose proof PI_gt_3. lra.
  - exact nearSouth_on_route.
  - rewrite positionCallback_on_route
      by (exact nearSouth_not_arrived || exact nearSouth_on_route).
    unfold setCurrentStepIndex, setLocation, Sample.navigating0.
    cbn [view location route currentStepIndex watchIdRef lastRecalcTimeRef].
    rewrite nearSouth_step_stays. reflexivity.
Qed.

(** ** Step progression *)

Lemma step_Position_index (ev : Event) (sys : System) :
  is_position ev = true ->
  (currentStepIndex (app sys)
   <= currentStepIndex (app (fst (step ev sys)))
   <= currentStepIndex (app sys) + 1)%nat.
Proof.
  destruct ev as [ | watchId latitude longitude now | | ]; try discriminate.
  intros _.
  destruct (find_watch watchId (watches sys)) as [ w | ] eqn:Hw.
  - rewrite (app_step_Position _ _ _ _ _ _ Hw), positionCallback_index.
    destruct (arrivalTest _ _); [ lia | ].
    destruct (stepUpdater_cases (watch_route w)
                (Location.mk latitude longitude)
                (currentStepIndex (app sys))) as [-> | ->]; lia.
  - rewrite (step_Position_missing _ _ _ _ _ Hw). simpl. lia.
Qed.

Lemma run_cons (ev : Event) (evs : list Event) (sys : System) :
  run (ev :: evs) sys =
  (fst (run evs (fst (step ev sys))),
   snd (step ev sys) ++ snd (run evs (fst (step ev sys)))).
Proof.
  simpl. destruct (step ev sys) as [sys1 effects1]. simpl.
  destruct (run evs sys1). reflexivity.
Qed.

(** The invariant holds all along a run. *)
Lemma watch_inv_run (evs : list Event) (sys : System) :
  watch_inv sys -> watch_inv (fst (run evs sys)).
Proof.
  revert sys. induction evs as [ | ev evs IH ]; intros sys Hinv.
  - exact Hinv.
  - rewrite run_cons. cbn [fst]. apply IH, watch_inv_step, Hinv.
Qed.

Lemma run_Position_index (evs : list Event) (sys : System) :
  forallb is_position evs = true ->
  (currentStepIndex (app sys)
   <= currentStepIndex (app (fst (run evs sys)))
   <= currentStepIndex (app sys) + length evs)%nat.
Proof.
  revert sys. induction evs as [ | ev evs IH ]; intros sys Hevs.
  - simpl. lia.
  - simpl in Hevs. apply andb_prop in Hevs. destruct Hevs as [Hev Hevs].
    rewrite run_cons. cbn [fst length].
    pose proof (step_Position_index ev sys Hev).
    pose proof (IH (fst (step ev sys)) Hevs). lia.
Qed.

(** C5 (as the code has it): while the installed route is the route the
    position watch holds, on a position event that is not an arrival
    [currentStepIndex] advances by exactly one if and only if the position
    is within 6 m of the end of the current step and the current step is
    not the last, and is unchanged otherwise; on an arrival (a fix within
    20 m of the destination, tested first) it is unchanged. The end of a
    step is the coordinate its last way point indexes, for a step with
    more than one way point. What the index does once another route has
    been installed under a running watch is not part of the statement.
    Over any sequence of position events [currentStepIndex] never
    decreases and grows by at most one per event. *)
Theorem step_progression :
  (forall destination installed latitude longitude now s,
      let loc := Location.mk latitude longitude in
      let s' := fst (positionCallback destination installed
                                      latitude longitude now s) in
      route s = Some installed ->
      (arrivalTest destination loc = true ->
       currentStepIndex s' = currentStepIndex s) /\
      (arrivalTest destination loc = false ->
       (currentStepIndex s' = (currentStepIndex s + 1)%nat <->
        nearStepEnd installed loc (currentStepIndex s) /\
        notLastStep installed (currentStepIndex s)) /\
       (~ (nearStepEnd installed loc (currentStepIndex s) /\
           notLastStep installed (currentStepIndex s)) ->
        currentStepIndex s' = currentStepIndex s))) /\
  (forall sys watchId w installed latitude longitude now,
      let loc := Location.mk latitude longitude in
      let sys' := fst (step (Position watchId latitude longitude now) sys) in
      find_watch watchId (watches sys) = Some w ->
      route (app sys) = Some installed ->
      watch_route w = installed ->
      (arrivalTest (watch_destination w) loc = true ->
       currentStepIndex (app sys') = currentStepIndex (app sys)) /\
      (arrivalTest (watch_destination w) loc = false ->
       (currentStepIndex (app sys') = (currentStepIndex (app sys) + 1)%nat <->
        nearStepEnd installed loc (currentStepIndex (app sys)) /\
        notLastStep installed (currentStepIndex (app sys))) /\
       (~ (nearStepEnd installed loc (currentStepIndex (app sys)) /\
           notLastStep installed (currentStepIndex (app sys))) ->
        currentStepIndex (app sys') = currentStepIndex (app sys)))) /\
  (forall ev sys,
      is_position ev = true ->
      (currentStepIndex (app sys)
       <= currentStepIndex (app (fst (step ev sys)))
       <= currentStepIndex (app sys) + 1)%nat) /\
  (forall evs sys,
      forallb is_position evs = true ->
      (currentStepIndex (app sys)
       <= currentStepIndex (app (fst (run evs sys)))
       <= currentStepIndex (app sys) + length evs)%nat).
Proof.
  split; [ | split;
             [ | split; [ exact step_Position_index
                        | exact run_Position_index ] ] ].
  - intros destination installed latitude longitude now s loc s' _.
    unfold s'. rewrite positionCallback_index. fold loc.
    split; intros HA; rewrite HA; [ reflexivity | ].
    split; [ apply stepUpdater_advances | apply stepUpdater_stays ].
  - intros sys watchId w installed latitude longitude now loc sys'
           Hw _ <-.
    unfold sys'. rewrite (app_step_Position _ _ _ _ _ _ Hw).
    rewrite positionCallback_index. fold loc.
    split; intros HA; rewrite HA; [ reflexivity | ].
    split; [ apply stepUpdater_advances | apply stepUpdater_stays ].
Qed.

Lemma atStepEnd_not_arrived :
  arrivalTest Sample.pub (Location.mk 0.001 0) = false.
Proof. unfold arrivalTest, Sample.pub. evaluate. reflexivity. Qed.

Lemma atStepEnd_near_end_of_step_0 :
  nearStepEnd Sample.route0 (Location.mk 0.001 0) 0 /\
  notLastStep Sample.route0 0.
Proof.
  split.
  - exists (0, 0.001). split; [ reflexivity | ].
    simpl. rewrite calculateDistance_self. lra.
  - unfold notLastStep. simpl. lia.
Qed.

(** On the sample session: a fix at the end of the first step advances to
    the second; three fixes move the index by at most three. *)
Lemma step_progression_witness :
  currentStepIndex
    (fst (positionCallback Sample.pub Sample.route0 0.001 0 Sample.t0
                           Sample.navigating0)) = 1%nat /\
  currentStepIndex
    (app (fst (step (Position 0 0.001 0 Sample.t0) Sample.session0))) = 1%nat /\
  (currentStepIndex (app Sample.session0)
   <= currentStepIndex
        (app (fst (run [Position 0 0.001 0 Sample.t0;
                        Position 0 0.001 0 (Sample.t0 + 1000);
                        Position 0 0.002 0 (Sample.t0 + 2000)]
                       Sample.session0)))
   <= currentStepIndex (app Sample.session0) + 3)%nat.
Proof.
  destruct step_progression as [Hone [Hsys [_ Hseq]]].
  split; [ | split ].
  - destruct (Hone Sample.pub Sample.route0 0.001 0 Sample.t0
                   Sample.navigating0 eq_refl) as [_ Hadv].
    destruct (Hadv atStepEnd_not_arrived) as [Hiff _].
    apply Hiff. exact atStepEnd_near_end_of_step_0.
  - destruct (Hsys Sample.session0 0%nat (mkWatch Sample.pub Sample.route0)
                   Sample.route0 0.001 0 Sample.t0
                   eq_refl eq_refl eq_refl) as [_ Hadv].
    destruct (Hadv atStepEnd_not_arrived) as [Hiff _].
    apply Hiff. exact atStepEnd_near_end_of_step_0.
  - apply (Hseq [Position 0 0.001 0 Sample.t0;
                 Position 0 0.001 0 (Sample.t0 + 1000)%Z;
                 Position 0 0.002 0 (Sample.t0 + 2000)%Z] Sample.session0).
    reflexivity.
Defined.

(** C5, against the wording: on the second step of the sample route, a fix
    at the end of that step, which is not the last step, is also within
    20 m of the destination; the callback takes the arrival branch and
    the index stays. *)
Lemma step_advance_counterexample :
  nearStepEnd Sample.route0 (Location.mk 0.002 0)
              (currentStepIndex Sample.navigating1) /\
  notLastStep Sample.route0 (currentStepIndex Sample.navigating1) /\
  currentStepIndex
    (fst (positionCallback Sample.pub Sample.route0 0.002 0 Sample.t0
                           Sample.navigating1)) =
  currentStepIndex Sample.navigating1 /\
  ~ Spec.step_advance_claim Sample.pub Sample.route0 0.002 0 Sample.t0
                            Sample.navigating1.
Proof.
  assert (Hidx : currentStepIndex
                   (fst (positionCallback Sample.pub Sample.route0 0.002 0
                           Sample.t0 Sample.navigating1)) = 1%nat).
  { rewrite positionCallback_index, atPub_arrived. reflexivity. }
  split; [ exact atPub_near_end_of_step_1 | ].
  split; [ exact step_1_not_last | ].
  split; [ exact Hidx | ].
  intros [Hiff _]. cbv zeta in Hiff. rewrite Hidx in Hiff.
  destruct Hiff as [_ H].
  specialize (H (conj atPub_near_end_of_step_1 step_1_not_last)).
  simpl in H. discriminate.
Qed.

(** ** The arrival decision *)

(** C6 (as the code has it): the arrival decision is true if and only if
    the distance from the position to the destination is less than 20 m,
    where the destination is the search result the traveller selected (its
    [lat] and [lng]), not a coordinate of the route; the decision reads
    neither the route nor the step index. When it is true the view becomes
    [arrived], the watch is cleared and the index is unchanged; when it is
    false the view is left as it was or becomes [recalculating]. *)
Theorem arrival_decision :
  forall destination currentRoute latitude longitude now s,
    let loc := Location.mk latitude longitude in
    let result := positionCallback destination currentRoute
                                   latitude longitude now s in
    (arrivalTest destination loc = true <->
     calculateDistance latitude longitude
                       (SearchResult.lat destination)
                       (SearchResult.lng destination) < 20) /\
    (arrivalTest destination loc = true ->
     view (fst result) = arrived /\
     watchIdRef (fst result) = None /\
     currentStepIndex (fst result) = currentStepIndex s /\
     requests (snd result) = 0%nat) /\
    (arrivalTest destination loc = false ->
     view (fst result) = view s \/ view (fst result) = recalculating).
Proof.
  intros destination currentRoute latitude longitude now s loc result.
  split; [ apply ltb_true | ].
  unfold result. rewrite positionCallback_outcome. fold loc. unfold outcome.
  split; intros HA; rewrite HA.
  - destruct (watchIdRef s) eqn:E; simpl; auto.
  - destruct (offRouteTest currentRoute loc && _); simpl; auto.
Qed.

(** At the pub of the sample session. *)
Lemma arrival_decision_witness :
  view (fst (positionCallback Sample.pub Sample.route0 0.002 0 Sample.t0
                              Sample.navigating1)) = arrived /\
  watchIdRef (fst (positionCallback Sample.pub Sample.route0 0.002 0 Sample.t0
                                    Sample.navigating1)) = None.
Proof.
  destruct (arrival_decision Sample.pub Sample.route0 0.002 0 Sample.t0
              Sample.navigating1) as [_ [H _]].
  destruct (H atPub_arrived) as [Hv [Hw _]].
  split; [ exact Hv | exact Hw ].
Defined.

(** C6, against the wording: the cafe lies 111 m past the last vertex of
    the sample route. At the cafe the code decides arrival, and the end
    point of the last step of the route is more than 20 m away. *)
Lemma arrival_counterexample :
  arrivalTest Sample.cafe (Location.mk 0.003 0) = true /\
  Spec.finalDestination Sample.route0 = Some (0, 0.002) /\
  20 <= calculateDistance 0.003 0 0.002 0 /\
  ~ Spec.arrival_claim Sample.cafe Sample.route0 (Location.mk 0.003 0).
Proof.
  assert (Hfar : 20 <= calculateDistance 0.003 0 0.002 0).
  { meridian. pose proof PI_gt_3. lra. }
  split; [ exact atCafe_arrived | ].
  split; [ reflexivity | ].
  split; [ exact Hfar | ].
  intros [H _]. destruct (H atCafe_arrived) as [dest [Hd Hlt]].
  change (Spec.finalDestination Sample.route0) with (Some (0, 0.002)) in Hd.
  injection Hd as <-. simpl in Hlt. lra.
Qed.

(** ** A failed recalculation *)

(** The callback that requests a route leaves the index alone: off the
    route is more than 30 m from every vertex, and the end of a step is a
    vertex. *)
Lemma request_keeps_index
  (destination : SearchResult.t) (currentRoute : Route.t)
  (latitude longitude : R) (now : Z) (s : AppState) :
  requests (snd (positionCallback destination currentRoute
                                  latitude longitude now s)) = 1%nat ->
  fst (positionCallback destination currentRoute latitude longitude now s) =
  setView recalculating
    (set_lastRecalcTimeRef now
       (setLocation (Some (Location.mk latitude longitude)) s)).
Proof.
  rewrite positionCallback_requests, positionCallback_outcome.
  unfold outcome.
  destruct (arrivalTest destination _); [ discriminate | ].
  destruct (offRouteTest currentRoute _) eqn:HO; [ | discriminate ].
  destruct (now - lastRecalcTimeRef s >? 10000)%Z; [ | discriminate ].
  intros _. simpl.
  destruct (stepUpdater_cases currentRoute (Location.mk latitude longitude)
              (currentStepIndex s)) as [E | E].
  - unfold setView, set_lastRecalcTimeRef, setCurrentStepIndex, setLocation.
    simpl. rewrite E. reflexivity.
  - apply stepUpdater_advances in E. destruct E as [Hnear _].
    apply nearStepEnd_on_route in Hnear. congruence.
Qed.

(** The event that issues a request leaves the route and the index as
    they are and adds the request to the pending ones. *)
Lemma step_request (ev : Event) (sys : System) :
  requests (snd (step ev sys)) = 1%nat ->
  route (app (fst (step ev sys))) = route (app sys) /\
  currentStepIndex (app (fst (step ev sys))) = currentStepIndex (app sys) /\
  pending (fst (step ev sys)) <> [].
Proof.
  destruct ev as [ result routeData | watchId latitude longitude now
                 | response | ].
  - simpl. discriminate.
  - destruct (find_watch watchId (watches sys)) as [ w | ] eqn:Hw.
    + rewrite (step_Position_found _ _ _ _ _ _ Hw). cbn [fst snd].
      intros Hreq. rewrite app_fold_perform. cbn [app with_app].
      rewrite (request_keeps_index _ _ _ _ _ _ Hreq).
      split; [ reflexivity | ]. split; [ reflexivity | ].
      rewrite positionCallback_requests in Hreq.
      rewrite positionCallback_outcome.
      destruct (outcome _ _ _ now (app sys)); try discriminate.
      simpl. destruct (pending sys); discriminate.
    + rewrite (step_Position_missing _ _ _ _ _ Hw). simpl. discriminate.
  - unfold step. destruct (pending sys); simpl; discriminate.
  - simpl. discriminate.
Qed.

(** Position events leave the installed route alone and take no request
    from the pending ones. *)
Lemma run_Position_route_pending (evs : list Event) (sys : System) :
  forallb is_position evs = true ->
  route (app (fst (run evs sys))) = route (app sys) /\
  (pending sys <> [] -> pending (fst (run evs sys)) <> []).
Proof.
  revert sys. induction evs as [ | ev evs IH ]; intros sys Hevs.
  - simpl. auto.
  - simpl in Hevs. apply andb_prop in Hevs. destruct Hevs as [Hev Hevs].
    rewrite run_cons. cbn [fst].
    destruct (IH (fst (step ev sys)) Hevs) as [Hr Hp].
    destruct ev as [ | watchId latitude longitude now | | ];
      try discriminate.
    split.
    + rewrite Hr.
      destruct (find_watch watchId (watches sys)) as [ w | ] eqn:Hw.
      * rewrite (app_step_Position _ _ _ _ _ _ Hw).
        apply positionCallback_route.
      * rewrite (step_Position_missing _ _ _ _ _ Hw). reflexivity.
    + intros Hne. apply Hp.
      destruct (step_Position_view_pending sys watchId latitude longitude now)
        as [[more Hmore] _].
      rewrite Hmore. destruct (pending sys); [ contradiction | discriminate ].
Qed.

(** A failure sets the view and nothing else, whether or not a request
    is pending. *)
Lemma step_failure_index (response : RouteResponse) (sys : System) :
  is_failure response = true ->
  currentStepIndex (app (fst (step (RecalcSettled response) sys))) =
  currentStepIndex (app sys).
Proof.
  intros Hf. simpl. destruct (pending sys); [ reflexivity | ].
  destruct response; [ discriminate | | ]; reflexivity.
Qed.

(** C7 (as the code has it): when a recalculation request fails (a
    response that is not ok, or a rejected fetch), the failure leaves the
    state as it is except for the view, which it sets to [navigating]: the
    installed route and [currentStepIndex] are what they are when the
    failure arrives, and the traveller keeps the route. They are what they
    were before the request when the failure is the next event. Position
    events handled while the request is in flight are applied as usual:
    they leave the route alone, and the index is then the one before the
    request or greater, by at most one per event. *)
Theorem recalculation_failure_keeps_route :
  (forall response s,
      is_failure response = true ->
      recalculateRoute_settled response s = setView navigating s) /\
  (forall destination currentRoute latitude longitude now s response,
      requests (snd (positionCallback destination currentRoute
                                      latitude longitude now s)) = 1%nat ->
      is_failure response = true ->
      let s2 := recalculateRoute_settled response
                  (fst (positionCallback destination currentRoute
                                         latitude longitude now s)) in
      route s2 = route s /\
      currentStepIndex s2 = currentStepIndex s /\
      view s2 = navigating) /\
  (forall sys response,
      is_failure response = true ->
      pending sys <> [] ->
      let sys' := fst (step (RecalcSettled response) sys) in
      app sys' = setView navigating (app sys) /\
      route (app sys') = route (app sys) /\
      currentStepIndex (app sys') = currentStepIndex (app sys) /\
      watches sys' = watches sys /\
      snd (step (RecalcSettled response) sys) = []) /\
  (forall sys request between response,
      requests (snd (step request sys)) = 1%nat ->
      forallb is_position between = true ->
      is_failure response = true ->
      let arriving := fst (run between (fst (step request sys))) in
      let sys' := fst (step (RecalcSettled response) arriving) in
      app sys' = setView navigating (app arriving) /\
      route (app sys') = route (app sys) /\
      (currentStepIndex (app sys)
       <= currentStepIndex (app sys')
       <= currentStepIndex (app sys) + length between)%nat /\
      view (app sys') = navigating).
Proof.
  assert (Hsettle : forall sys response,
             is_failure response = true ->
             pending sys <> [] ->
             app (fst (step (RecalcSettled response) sys)) =
             setView navigating (app sys)).
  { intros sys response Hf Hp. simpl.
    destruct (pending sys) as [ | request rest ]; [ contradiction | ].
    destruct response; [ discriminate | | ]; reflexivity. }
  split; [ | split; [ | split ] ].
  - intros response s H. destruct response; [ discriminate | | ]; reflexivity.
  - intros destination currentRoute latitude longitude now s response Hreq Hf
           s2.
    subst s2. rewrite (request_keeps_index _ _ _ _ _ _ Hreq).
    destruct response; [ discriminate | | ]; repeat split.
  - intros sys response Hf Hp sys'. subst sys'. simpl.
    destruct (pending sys) as [ | request rest ]; [ contradiction | ].
    destruct response; [ discriminate | | ]; repeat split.
  - intros sys request between response Hreq Hb Hf arriving sys'.
    destruct (step_request request sys Hreq) as [Hr [Hi Hp]].
    destruct (run_Position_route_pending between (fst (step request sys)) Hb)
      as [Hr' Hp'].
    pose proof (run_Position_index between (fst (step request sys)) Hb) as Hi'.
    fold arriving in Hr', Hp', Hi'.
    assert (E : app sys' = setView navigating (app arriving))
      by (apply Hsettle; [ exact Hf | apply Hp', Hp ]).
    rewrite E. split; [ reflexivity | ].
    split; [ simpl; congruence | ].
    split; [ simpl; lia | reflexivity ].
Qed.

(** On the sample session: the pending request fails at once; and it fails
    after a fix at the end of the first step has been handled. *)
Lemma recalculation_failure_keeps_route_witness :
  route (app (fst (step (RecalcSettled ResponseError) Sample.recalculating0))) =
  Some Sample.route0 /\
  currentStepIndex
    (app (fst (step (RecalcSettled ResponseError) Sample.recalculating0))) =
  0%nat /\
  view (app (fst (step (RecalcSettled ResponseNotOk) Sample.recalculating0))) =
  navigating /\
  route (app (fst (step (RecalcSettled ResponseError)
                     (fst (run [Position 0 0.001 0 (Sample.t0 + 1000)]
                               Sample.recalculating0))))) =
  Some Sample.route0.
Proof.
  destruct recalculation_failure_keeps_route as [_ [_ [H Hrun]]].
  assert (Hp : pending Sample.recalculating0 <> [])
    by (rewrite recalculating0_eq; discriminate).
  destruct (H Sample.recalculating0 ResponseError eq_refl Hp)
    as [_ [Hr [Hi _]]].
  destruct (H Sample.recalculating0 ResponseNotOk eq_refl Hp) as [Hv _].
  destruct (Hrun Sample.session0 (Position 0 (-0.001) 0 Sample.t0)
                 [Position 0 0.001 0 (Sample.t0 + 1000)%Z] ResponseError
                 south_requests eq_refl eq_refl) as [_ [Hr' _]].
  rewrite Hr, Hi, Hv. rewrite recalculating0_eq.
  split; [ reflexivity | ]. split; [ reflexivity | ].
  split; [ reflexivity | ].
  rewrite <- recalculating0_eq. exact Hr'.
Defined.

(** C7, against the wording: on the sample session a fix 111 m south of
    the route issues the request; while it is in flight a fix at the end
    of the first step advances the index to 1; then the request fails. The
    index is 1, not the 0 it was before the request. *)
Lemma recalculation_failure_counterexample :
  currentStepIndex (app Sample.session0) = 0%nat /\
  currentStepIndex
    (app (fst (step (RecalcSettled ResponseError)
                 (fst (run [Position 0 0.001 0 (Sample.t0 + 1000)]
                           (fst (step (Position 0 (-0.001) 0 Sample.t0)
                                      Sample.session0))))))) = 1%nat /\
  ~ Spec.failure_atomic_claim
      (Position 0 (-0.001) 0 Sample.t0)
      [Position 0 0.001 0 (Sample.t0 + 1000)] ResponseError Sample.session0.
Proof.
  assert (Hidx : currentStepIndex
                   (app (fst (step (RecalcSettled ResponseError)
                      (fst (run [Position 0 0.001 0 (Sample.t0 + 1000)]
                              (fst (step (Position 0 (-0.001) 0 Sample.t0)
                                         Sample.session0))))))) = 1%nat).
  { rewrite step_failure_index by reflexivity.
    change (fst (step (Position 0 (-0.001) 0 Sample.t0) Sample.session0))
      with Sample.recalculating0.
    rewrite run_cons. cbn [run fst].
    rewrite (app_step_Position _ 0%nat (mkWatch Sample.pub Sample.route0))
      by (rewrite recalculating0_eq; reflexivity).
    cbn [watch_destination watch_route].
    rewrite positionCallback_index, atStepEnd_not_arrived.
    rewrite recalculating0_eq. cbn [app currentStepIndex].
    apply stepUpdater_advances. exact atStepEnd_near_end_of_step_0. }
  split; [ reflexivity | ]. split; [ exact Hidx | ].
  intros H.
  destruct (H eq_refl south_requests eq_refl eq_refl) as [_ [Hi _]].
  rewrite Hidx in Hi. discriminate.
Qed.

(** * Further properties *)

(** ** The distance in binary64: what holds bit for bit

    The operations of IEEE 754 through their specification: rounding does
    not overflow on small numbers, and it commutes with the change of
    sign. *)

Section Binary64Rounding.

Local Open Scope Z_scope.

Lemma digits2_pos_size (p : positive) : digits2_pos p = Pos.size p.
Proof. induction p as [ p IH | p IH | ]; simpl; rewrite ?IH; reflexivity. Qed.

Lemma Zdigits2_log2 (m : Z) : 0 < m -> Zdigits2 m = Z.log2 m + 1.
Proof.
  destruct m as [ | p | p ]; try lia. intros _.
  unfold Zdigits2. rewrite digits2_pos_size.
  destruct p as [ p | p | ]; simpl; try rewrite Pos2Z.inj_succ; lia.
Qed.

(** A number below [2^k] has at most [k] binary digits. *)
Lemma Zdigits2_bound (m k : Z) : 0 <= m < 2 ^ k -> 0 <= k -> Zdigits2 m <= k.
Proof.
  intros [H0 Hk] K. destruct (Z.eq_dec m 0) as [-> | N]; [ simpl; lia | ].
  rewrite Zdigits2_log2 by lia.
  assert (Z.log2 m < k) by (apply Z.log2_lt_pow2; lia). lia.
Qed.

Lemma shr_1_bound (mrs : shr_record) :
  0 <= shr_m mrs -> 0 <= shr_m (shr_1 mrs) <= shr_m mrs.
Proof.
  destruct mrs as [m r s]. simpl.
  destruct m as [ | [ p | p | ] | p ]; simpl; lia.
Qed.

Lemma iter_shr_1_bound (p : positive) (mrs : shr_record) :
  0 <= shr_m mrs -> 0 <= shr_m (SpecFloat.iter_pos shr_1 p mrs) <= shr_m mrs.
Proof.
  revert mrs. induction p as [ p IH | p IH | ]; intros mrs H; simpl.
  - pose proof (shr_1_bound mrs H) as H1.
    pose proof (IH (shr_1 mrs) (proj1 H1)) as H2.
    pose proof (IH _ (proj1 H2)). lia.
  - pose proof (IH mrs H) as H2.
    pose proof (IH _ (proj1 H2)). lia.
  - apply shr_1_bound, H.
Qed.

Lemma shr_fexp_bound (m e : Z) (l : SpecFloat.location) :
  0 <= m ->
  0 <= shr_m (fst (shr_fexp prec emax m e l)) <= m /\
  snd (shr_fexp prec emax m e l) =
  Z.max e (fexp prec emax (Zdigits2 m + e)).
Proof.
  intros H. unfold shr_fexp, shr.
  assert (Hm : shr_m (shr_record_of_loc m l) = m)
    by (destruct l as [ | [ | | ] ]; reflexivity).
  destruct (fexp prec emax (Zdigits2 m + e) - e) as [ | p | p ] eqn:En;
    cbn [fst snd].
  - rewrite Hm. lia.
  - pose proof (iter_shr_1_bound p (shr_record_of_loc m l)) as B.
    rewrite Hm in B. split; [ apply B, H | lia ].
  - rewrite Hm. lia.
Qed.

Lemma round_nearest_even_bound (m : Z) (l : SpecFloat.location) :
  m <= round_nearest_even m l <= m + 1.
Proof.
  destruct l as [ | [ | | ] ]; simpl; try lia.
  destruct (Z.even m); lia.
Qed.

(** Rounding a small number does not overflow: the result is a zero or a
    finite number. *)
Lemma binary_round_aux_small (s : bool) (m e : Z) :
  0 <= m < 2 ^ 106 -> e <= -104 ->
  (exists s', binary_round_aux prec emax s m e loc_Exact = S754_zero s') \/
  (exists m' e', binary_round_aux prec emax s m e loc_Exact =
                 S754_finite s m' e').
Proof.
  intros Hm He. unfold binary_round_aux.
  pose proof (shr_fexp_bound m e loc_Exact (proj1 Hm)) as [B1 E1].
  destruct (shr_fexp prec emax m e loc_Exact) as [mrs' e'].
  cbn [fst snd] in B1, E1.
  pose proof (round_nearest_even_bound (shr_m mrs') (loc_of_shr_record mrs'))
    as R.
  set (m1 := round_nearest_even (shr_m mrs') (loc_of_shr_record mrs')) in *.
  assert (H1 : 0 <= m1) by lia.
  pose proof (shr_fexp_bound m1 e' loc_Exact H1) as [B2 E2].
  destruct (shr_fexp prec emax m1 e' loc_Exact) as [mrs'' e''].
  cbn [fst snd] in B2, E2.
  pose proof (Zdigits2_bound m 106 Hm ltac:(lia)) as D0.
  assert (P : 2 ^ 107 = 2 * 2 ^ 106) by reflexivity.
  assert (D1 : Zdigits2 m1 <= 107) by (apply Zdigits2_bound; lia).
  assert (D0' : 0 <= Zdigits2 m).
  { destruct m; simpl; lia. }
  assert (D1' : 0 <= Zdigits2 m1).
  { destruct m1; simpl; lia. }
  unfold fexp, emin, prec, emax in E1, E2.
  destruct (shr_m mrs'') as [ | p | p ] eqn:Em.
  - left. eexists. reflexivity.
  - right.
    assert (L : (e'' <=? emax - prec) = true)
      by (apply Z.leb_le; unfold emax, prec; lia).
    rewrite L. eexists. eexists. reflexivity.
  - lia.
Qed.

End Binary64Rounding.

Section Binary64Signs.

Local Open Scope float_scope.

Lemma binary_round_aux_opp (s : bool) (m e : Z) (l : SpecFloat.location) :
  binary_round_aux prec emax (negb s) m e l =
  SFopp (binary_round_aux prec emax s m e l).
Proof.
  unfold binary_round_aux.
  destruct (shr_fexp prec emax m e l) as [mrs' e'].
  destruct (shr_fexp prec emax _ e' loc_Exact) as [mrs'' e''].
  destruct (shr_m mrs''); [ reflexivity | | reflexivity ].
  destruct (e'' <=? emax - prec)%Z; reflexivity.
Qed.

Lemma binary_round_opp (s : bool) (m : positive) (e : Z) :
  binary_round prec emax (negb s) m e = SFopp (binary_round prec emax s m e).
Proof.
  unfold binary_round.
  destruct (shl_align m e _) as [mz ez]. apply binary_round_aux_opp.
Qed.

Lemma binary_normalize_opp (m e : Z) :
  binary_normalize prec emax (- m) e false =
  SFopp (binary_normalize prec emax m e false) \/
  binary_normalize prec emax (- m) e false =
  binary_normalize prec emax m e false.
Proof.
  destruct m as [ | p | p ]; simpl.
  - right. reflexivity.
  - left. exact (binary_round_opp false p e).
  - left. exact (binary_round_opp true p e).
Qed.

Lemma SFmul_comm (x y : spec_float) : SF64mul x y = SF64mul y x.
Proof.
  unfold SF64mul, SFmul.
  destruct x as [ sx | sx | | sx mx ex ], y as [ sy | sy | | sy my ey ];
    rewrite ?(xorb_comm sx sy); try reflexivity.
  rewrite (Pos.mul_comm mx my), (Z.add_comm ex ey). reflexivity.
Qed.

Lemma SFmul_opp_l (x y : spec_float) :
  SF64mul (SFopp x) y = SFopp (SF64mul x y).
Proof.
  unfold SF64mul, SFmul.
  destruct x as [ sx | sx | | sx mx ex ], y as [ sy | sy | | sy my ey ];
    cbn [SFopp]; try reflexivity;
    try (destruct sx, sy; reflexivity).
  rewrite <- binary_round_aux_opp. destruct sx, sy; reflexivity.
Qed.

Lemma SFdiv_opp_l (x y : spec_float) :
  SF64div (SFopp x) y = SFopp (SF64div x y).
Proof.
  unfold SF64div, SFdiv.
  destruct x as [ sx | sx | | sx mx ex ], y as [ sy | sy | | sy my ey ];
    cbn [SFopp]; try reflexivity;
    try (destruct sx, sy; reflexivity).
  destruct (SFdiv_core_binary prec emax (Z.pos mx) ex (Z.pos my) ey)
    as [[mz ez] lz].
  rewrite <- binary_round_aux_opp. destruct sx, sy; reflexivity.
Qed.

Lemma SFopp_involutive (x : spec_float) : SFopp (SFopp x) = x.
Proof.
  destruct x as [ s | s | | s m e ]; simpl; rewrite ?negb_involutive;
    reflexivity.
Qed.

Lemma cond_Zopp_sub (sx sy : bool) (a b : Z) :
  (cond_Zopp sy b - cond_Zopp sx a = - (cond_Zopp sx a - cond_Zopp sy b))%Z.
Proof. lia. Qed.

Lemma SFsub_swap (x y : spec_float) :
  SF64sub y x = SFopp (SF64sub x y) \/ SF64sub y x = SF64sub x y.
Proof.
  unfold SF64sub, SFsub.
  destruct x as [ sx | sx | | sx mx ex ], y as [ sy | sy | | sy my ey ];
    try (destruct sx, sy; simpl; auto; fail);
    try (destruct sx; simpl; auto; fail);
    try (destruct sy; simpl; auto; fail);
    auto.
  cbv zeta. rewrite (Z.min_comm ey ex), cond_Zopp_sub.
  apply binary_normalize_opp.
Qed.

End Binary64Signs.

Section Binary64Arithmetic.

Local Open Scope float_scope.

Lemma float_mul_comm (x y : float) : x * y = y * x.
Proof. apply Prim2SF_inj. rewrite !mul_spec. apply SFmul_comm. Qed.

Lemma float_mul_opp_l (x y : float) : - x * y = - (x * y).
Proof.
  apply Prim2SF_inj. rewrite mul_spec, !opp_spec, mul_spec.
  apply SFmul_opp_l.
Qed.

Lemma float_div_opp_l (x y : float) : - x / y = - (x / y).
Proof.
  apply Prim2SF_inj. rewrite div_spec, !opp_spec, div_spec.
  apply SFdiv_opp_l.
Qed.

Lemma float_opp_involutive (x : float) : - - x = x.
Proof. apply Prim2SF_inj. rewrite !opp_spec. apply SFopp_involutive. Qed.

Lemma float_mul_opp_opp (x : float) : - x * - x = x * x.
Proof.
  rewrite float_mul_opp_l, (float_mul_comm x (- x)), float_mul_opp_l. apply float_opp_involutive.
Qed.

(** Subtraction the other way round gives the opposite number, or the
    same number where that is a zero or [NaN]. *)
Lemma float_sub_swap (x y : float) : y - x = - (x - y) \/ y - x = x - y.
Proof.
  destruct (SFsub_swap (Prim2SF x) (Prim2SF y)) as [H | H]; [ left | right ];
    apply Prim2SF_inj; rewrite ?opp_spec, !sub_spec; exact H.
Qed.

(** Half the angle in radians of the opposite number of degrees. *)
Lemma half_angle_opp (d : float) :
  - d * Binary64.Math_PI / 180 / 2 = - (d * Binary64.Math_PI / 180 / 2).
Proof. rewrite float_mul_opp_l, !float_div_opp_l. reflexivity. Qed.

Lemma float_sub_self (x : float) : is_finite x = true -> x - x = 0.
Proof.
  unfold is_finite, is_nan, is_infinity.
  rewrite !FloatAxioms.eqb_spec, abs_spec.
  intros H. apply Prim2SF_inj. rewrite sub_spec.
  unfold SF64sub, SFsub.
  destruct (Prim2SF x) as [ s | s | | s m e ].
  - destruct s; reflexivity.
  - destruct s; discriminate.
  - discriminate.
  - rewrite Z.sub_diag. reflexivity.
Qed.

(** The square of a number of magnitude at most 1 does not overflow;
    times [+0] it is [+0]. *)
Lemma float_square_mul_zero (c : float) : (abs c <=? 1) = true -> c * c * 0 = 0.
Proof.
  rewrite leb_spec, abs_spec. intros H.
  apply Prim2SF_inj. rewrite !mul_spec.
  pose proof (Prim2SF_valid c) as V.
  change (Prim2SF 0) with (S754_zero false).
  change (Prim2SF 1) with (S754_finite false 4503599627370496 (-52)) in H.
  destruct (Prim2SF c) as [ s | s | | s m e ].
  - destruct s; reflexivity.
  - discriminate.
  - discriminate.
  - assert (He : (e <= -52)%Z).
    { unfold SFleb, SFabs, SFcompare in H.
      destruct (Z.compare_spec e (-52)); try lia; discriminate. }
    assert (Hm : (0 <= Z.pos (m * m) < 2 ^ 106)%Z).
    { simpl in V. unfold bounded, canonical_mantissa in V.
      apply andb_prop in V. destruct V as [V _]. apply Z.eqb_eq in V.
      unfold fexp, emin, prec, emax in V.
      assert (D : (Z.pos (digits2_pos m) <= 53)%Z) by lia.
      change (Z.pos (digits2_pos m)) with (Zdigits2 (Z.pos m)) in D.
      rewrite Zdigits2_log2 in D by lia.
      assert (L : (Z.pos m < 2 ^ 53)%Z) by (apply Z.log2_lt_pow2; lia).
      rewrite Pos2Z.inj_mul.
      change (2 ^ 106)%Z with (2 ^ 53 * 2 ^ 53)%Z. nia. }
    unfold SF64mul. cbn [SFmul].
    destruct (binary_round_aux_small (xorb s s) (Z.pos (m * m)) (e + e) Hm
                ltac:(lia)) as [[s' E] | [m' [e' E]]];
      rewrite E; [ | rewrite xorb_nilpotent; reflexivity ].
    unfold binary_round_aux in E.
    destruct (shr_fexp prec emax (Z.pos (m * m)) (e + e) loc_Exact)
      as [mrs' e1].
    destruct (shr_fexp prec emax _ e1 loc_Exact) as [mrs'' e2].
    rewrite xorb_nilpotent in E.
    destruct (shr_m mrs''); [ | destruct (e2 <=? emax - prec)%Z | ];
      try discriminate.
    injection E as <-. reflexivity.
Qed.

End Binary64Arithmetic.

Section Binary64Symmetry.

Local Open Scope float_scope.

Variable E : Binary64.Engine.
Hypothesis Hsin : Binary64.sin_odd E.
Hypothesis Hsquare : Binary64.square_even E.

(** The squared sine of half the difference, either way round. *)
Lemma squared_sine_swap (x y : float) :
  Binary64.exponentiate E
    (Binary64.Math_sin E ((x - y) * Binary64.Math_PI / 180 / 2)) 2 =
  Binary64.exponentiate E
    (Binary64.Math_sin E ((y - x) * Binary64.Math_PI / 180 / 2)) 2.
Proof.
  destruct (float_sub_swap x y) as [H | H]; rewrite H; [ | reflexivity ].
  rewrite half_angle_opp, Hsin, Hsquare. reflexivity.
Qed.

Lemma Binary64_haversine_a_sym (lat1 lng1 lat2 lng2 : float) :
  Binary64.haversine_a E lat1 lng1 lat2 lng2 =
  Binary64.haversine_a E lat2 lng2 lat1 lng1.
Proof.
  unfold Binary64.haversine_a.
  rewrite (squared_sine_swap lat2 lat1), (squared_sine_swap lng2 lng1).
  rewrite (float_mul_comm (Binary64.Math_cos E (lat1 * Binary64.Math_PI / 180))).
  reflexivity.
Qed.

End Binary64Symmetry.

(** The comparisons with zero of the opposite number. *)
Lemma SFeqb_opp_zero (x : spec_float) :
  SFeqb (SFopp x) (S754_zero false) = SFeqb x (S754_zero false).
Proof. destruct x as [ s | s | | s m e ]; try destruct s; reflexivity. Qed.

Lemma SFabs_opp (x : spec_float) : SFabs (SFopp x) = SFabs x.
Proof. destruct x as [ s | s | | s m e ]; reflexivity. Qed.

Lemma SFltb_opp_zero (x c : spec_float) :
  SFeqb (SFabs x) c = true ->
  SFeqb x (S754_zero false) = false ->
  SFltb (SFopp x) (S754_zero false) = negb (SFltb x (S754_zero false)).
Proof.
  destruct x as [ s | s | | s m e ]; try destruct s; try discriminate;
    reflexivity.
Qed.

Section SampleEngine.

Local Open Scope float_scope.

Lemma float_eqb_opp_zero (x : float) : (- x =? 0) = (x =? 0).
Proof. rewrite !FloatAxioms.eqb_spec, opp_spec. apply SFeqb_opp_zero. Qed.

Lemma float_abs_opp (x : float) : abs (- x) = abs x.
Proof. apply Prim2SF_inj. rewrite !abs_spec, opp_spec. apply SFabs_opp. Qed.

Lemma float_ltb_opp_zero (x c : float) :
  (abs x =? c) = true -> (x =? 0) = false -> (- x <? 0) = negb (x <? 0).
Proof.
  rewrite !FloatAxioms.eqb_spec, !ltb_spec, abs_spec, opp_spec.
  apply SFltb_opp_zero.
Qed.

(** The engine of the evaluations has an odd sine and an even square. *)
Lemma sampleEngine_sin_odd : Binary64.sin_odd Binary64.sampleEngine.
Proof.
  intros x. cbn [Binary64.Math_sin Binary64.sampleEngine].
  unfold Binary64.sample_sin. rewrite float_eqb_opp_zero, float_abs_opp.
  destruct (x =? 0) eqn:E0; [ reflexivity | ].
  destruct (abs x =? 0x1.acee9f37bebd5p-3) eqn:E1.
  { rewrite (float_ltb_opp_zero x _ E1 E0). destruct (x <? 0); reflexivity. }
  destruct (abs x =? 0x1.921fb54442d18p+0) eqn:E2.
  { rewrite (float_ltb_opp_zero x _ E2 E0). destruct (x <? 0); reflexivity. }
  reflexivity.
Qed.

Lemma sampleEngine_square_even : Binary64.square_even Binary64.sampleEngine.
Proof. intros x. apply float_mul_opp_opp. Qed.

End SampleEngine.

(** X1: in binary64 [calculateDistance] is symmetric bit for bit, [NaN]
    included, on every engine whose sine is odd and whose square does not
    depend on the sign of its base: the two differences change sign or
    stay (a zero, a [NaN]), the rounding of each product and quotient
    follows the sign, and the product of the two cosines commutes. *)
Theorem calculateDistance_binary64_symmetric :
  forall E,
    Binary64.sin_odd E -> Binary64.square_even E ->
    forall lat1 lng1 lat2 lng2,
      Binary64.calculateDistance E lat1 lng1 lat2 lng2 =
      Binary64.calculateDistance E lat2 lng2 lat1 lng1.
Proof.
  intros E Hsin Hsquare lat1 lng1 lat2 lng2.
  rewrite !Binary64_calculateDistance_unfold.
  rewrite (Binary64_haversine_a_sym E Hsin Hsquare lat1 lng1 lat2 lng2).
  reflexivity.
Qed.

(** From 12 degrees south to 12 degrees north on a meridian, and back. *)
Lemma calculateDistance_binary64_symmetric_witness :
  Binary64.calculateDistance Binary64.sampleEngine (-12) 0 12 0 =
  0x1.45c431ea6efp+21%float /\
  Binary64.calculateDistance Binary64.sampleEngine 12 0 (-12) 0 =
  0x1.45c431ea6efp+21%float.
Proof.
  assert (E : Binary64.calculateDistance Binary64.sampleEngine (-12) 0 12 0 =
              0x1.45c431ea6efp+21%float) by (vm_compute; reflexivity).
  split; [ exact E | ].
  rewrite <- (calculateDistance_binary64_symmetric Binary64.sampleEngine
                sampleEngine_sin_odd sampleEngine_square_even).
  exact E.
Defined.

(** X2: in binary64 the distance from a point to itself is [+0], for
    finite coordinates, where the engine gives [sin 0 = 0], [0 ** 2 = 0],
    [atan2(0, 1) = 0] as the language fixes them, and a cosine of the
    latitude of magnitude at most 1: the differences are [+0], and the
    product of the cosines, which does not overflow, times [+0] is
    [+0]. *)
Theorem calculateDistance_binary64_self :
  forall E lat lng,
    is_finite lat = true -> is_finite lng = true ->
    Binary64.Math_sin E 0 = 0%float ->
    Binary64.exponentiate E 0 2 = 0%float ->
    Binary64.Math_atan2 E 0 1 = 0%float ->
    (abs (Binary64.Math_cos E (lat * Binary64.Math_PI / 180)) <=? 1)%float
    = true ->
    Binary64.calculateDistance E lat lng lat lng = 0%float.
Proof.
  intros E lat lng Hlat Hlng Hsin Hsq Hatan Hcos.
  rewrite Binary64_calculateDistance_unfold.
  assert (Ha : Binary64.haversine_a E lat lng lat lng = 0%float).
  { unfold Binary64.haversine_a.
    rewrite (float_sub_self lat Hlat), (float_sub_self lng Hlng).
    change (0 * Binary64.Math_PI / 180 / 2)%float with 0%float.
    rewrite Hsin, Hsq, (float_square_mul_zero _ Hcos). reflexivity. }
  rewrite Ha.
  change (Binary64.Math_sqrt 0) with 0%float.
  change (Binary64.Math_sqrt (1 - 0)) with 1%float.
  rewrite Hatan. reflexivity.
Qed.

(** The point (12, 180). *)
Lemma calculateDistance_binary64_self_witness :
  Binary64.calculateDistance Binary64.sampleEngine 12 180 12 180 = 0%float.
Proof.
  apply calculateDistance_binary64_self; vm_compute; reflexivity.
Defined.

(** ** More on the nearest vertex *)

Lemma vertexDistances_In (loc : Location.t) (coords : list (R * R)) (d : R) :
  In d (vertexDistances loc coords) <->
  exists coord, In coord coords /\
                d = calculateDistance (Location.lat loc) (Location.lng loc)
                                      (snd coord) (fst coord).
Proof.
  unfold vertexDistances. rewrite in_map_iff.
  split; intros [c [H1 H2]]; exists c; auto.
Qed.

(** More vertices, no greater result. *)
Lemma findNearestDistanceToRoute_incl
  (loc : Location.t) (coords coords' : list (R * R)) :
  (forall coord, In coord coords -> In coord coords') ->
  number_ltb (findNearestDistanceToRoute loc coords)
             (findNearestDistanceToRoute loc coords') = false.
Proof.
  intros Hincl.
  pose proof (findNearestDistanceToRoute_min loc coords) as H.
  pose proof (findNearestDistanceToRoute_min loc coords') as H'.
  destruct (findNearestDistanceToRoute loc coords) as [ m | ];
    [ | reflexivity ].
  destruct H as [Hin _]. apply vertexDistances_In in Hin.
  destruct Hin as [coord [Hc Hd]].
  destruct (findNearestDistanceToRoute loc coords') as [ m' | ].
  - destruct H' as [_ Hmin]. simpl. apply ltb_false. apply Hmin.
    apply vertexDistances_In. exists coord. split; [ apply Hincl, Hc | exact Hd ].
  - subst coords'. destruct (Hincl coord Hc).
Qed.

(** X4: [findNearestDistanceToRoute] depends on the set of vertices only,
    not on their order or repetition, and adding vertices never makes the
    result greater; so a fix that is on a route (within 30 m of a vertex)
    is on every route that has all the vertices of that one. *)
Theorem findNearestDistanceToRoute_vertex_set :
  (forall loc coords coords',
      (forall coord, In coord coords -> In coord coords') ->
      number_ltb (findNearestDistanceToRoute loc coords)
                 (findNearestDistanceToRoute loc coords') = false) /\
  (forall loc coords coords',
      (forall coord, In coord coords <-> In coord coords') ->
      findNearestDistanceToRoute loc coords =
      findNearestDistanceToRoute loc coords') /\
  (forall loc r r',
      (forall coord, In coord (Route.coordinates r) ->
                     In coord (Route.coordinates r')) ->
      offRouteTest r loc = false -> offRouteTest r' loc = false).
Proof.
  split; [ exact findNearestDistanceToRoute_incl | ]. split.
  - intros loc coords coords' H.
    pose proof (findNearestDistanceToRoute_incl loc coords coords'
                  (fun c => proj1 (H c))) as H1.
    pose proof (findNearestDistanceToRoute_incl loc coords' coords
                  (fun c => proj2 (H c))) as H2.
    destruct (findNearestDistanceToRoute loc coords) as [ m | ],
             (findNearestDistanceToRoute loc coords') as [ m' | ];
      simpl in *; try discriminate; try reflexivity.
    apply ltb_false in H1, H2. f_equal. lra.
  - intros loc r r' Hincl. unfold offRouteTest, number_gtb.
    pose proof (findNearestDistanceToRoute_incl loc _ _ Hincl) as H.
    destruct (findNearestDistanceToRoute loc (Route.coordinates r)) as [ m | ],
             (findNearestDistanceToRoute loc (Route.coordinates r')) as [ m' | ];
      simpl in *; try discriminate.
    intros Hm. apply ltb_false in H, Hm. apply ltb_false. lra.
Qed.

(** The sample route, and the same vertices in reverse with one repeated. *)
Lemma findNearestDistanceToRoute_vertex_set_witness :
  findNearestDistanceToRoute (Location.mk (-0.001) 0) Sample.coords =
  findNearestDistanceToRoute (Location.mk (-0.001) 0)
    [(0, 0.002); (0, 0.001); (0, 0); (0, 0.001)].
Proof.
  destruct findNearestDistanceToRoute_vertex_set as [_ [H _]].
  apply H. intros coord. unfold Sample.coords. simpl. tauto.
Defined.

(** ** Requests along a run *)

(** Only a position event issues effects. *)
Lemma step_effects_other (ev : Event) (sys : System) :
  is_position ev = false -> snd (step ev sys) = [].
Proof.
  destruct ev; try discriminate; intros _; simpl; try reflexivity.
  destruct (pending sys); reflexivity.
Qed.

(** What an event does to [lastRecalcTimeRef]: a position event that
    issues a request stamps it with its [now], anything else keeps it. *)
Lemma step_lastRecalcTime (ev : Event) (sys : System) :
  (requests (snd (step ev sys)) <= 1)%nat /\
  match ev with
  | Position _ _ _ now =>
      if (0 <? requests (snd (step ev sys)))%nat
      then lastRecalcTimeRef (app (fst (step ev sys))) = now /\
           (now - lastRecalcTimeRef (app sys) > 10000)%Z
      else lastRecalcTimeRef (app (fst (step ev sys))) =
           lastRecalcTimeRef (app sys)
  | _ => lastRecalcTimeRef (app (fst (step ev sys))) =
         lastRecalcTimeRef (app sys)
  end.
Proof.
  destruct ev as [ result routeData | watchId latitude longitude now
                 | response | ].
  - rewrite (step_effects_other (RouteLoaded result routeData) sys eq_refl).
    split; [ apply Nat.le_0_l | ].
    simpl. destruct (watchIdRef (app sys)); reflexivity.
  - destruct (find_watch watchId (watches sys)) as [ w | ] eqn:Hw.
    + rewrite (app_step_Position _ _ _ _ _ _ Hw).
      rewrite (step_Position_found _ _ _ _ _ _ Hw). cbn [snd].
      rewrite positionCallback_requests, positionCallback_outcome.
      unfold outcome.
      destruct (arrivalTest _ _).
      * split; [ apply Nat.le_0_l | ].
        destruct (watchIdRef (app sys)); reflexivity.
      * destruct (offRouteTest _ _); simpl;
          [ | split; [ apply Nat.le_0_l | reflexivity ] ].
        destruct (now - lastRecalcTimeRef (app sys) >? 10000)%Z eqn:E; simpl.
        -- apply Z.gtb_lt in E. split; [ apply Nat.le_refl | ].
           split; [ reflexivity | lia ].
        -- split; [ apply Nat.le_0_l | reflexivity ].
    + rewrite (step_Position_missing _ _ _ _ _ Hw).
      split; [ apply Nat.le_0_l | reflexivity ].
  - rewrite (step_effects_other (RecalcSettled response) sys eq_refl).
    split; [ apply Nat.le_0_l | ].
    simpl. destruct (pending sys); simpl; [ reflexivity | ].
    destruct response; reflexivity.
  - rewrite (step_effects_other GoBack sys eq_refl).
    split; [ apply Nat.le_0_l | reflexivity ].
Qed.

Lemma requests_app (e1 e2 : list Effect) :
  requests (e1 ++ e2) = (requests e1 + requests e2)%nat.
Proof. unfold requests. rewrite filter_app, length_app. reflexivity. Qed.

Lemma requestTimes_spaced (evs : list Event) (sys : System) :
  spaced (lastRecalcTimeRef (app sys)) (requestTimes evs sys) /\
  length (requestTimes evs sys) = requests (snd (run evs sys)).
Proof.
  revert sys. induction evs as [ | ev evs IH ]; intros sys.
  - split; reflexivity.
  - rewrite run_cons. cbn [snd requestTimes]. rewrite requests_app.
    destruct (IH (fst (step ev sys))) as [IH1 IH2].
    destruct (step_lastRecalcTime ev sys) as [Hle H].
    destruct ev as [ result routeData | watchId latitude longitude now
                   | response | ];
      try (rewrite step_effects_other by reflexivity;
           rewrite H in IH1; cbn [List.app requests filter length Nat.add];
           split; [ exact IH1 | exact IH2 ]).
    destruct (0 <? requests (snd (step (Position watchId latitude longitude now)
                                       sys)))%nat eqn:E.
    + apply Nat.ltb_lt in E. destruct H as [H1 H2]. rewrite H1 in IH1.
      cbn [List.app spaced length].
      split; [ split; [ exact H2 | exact IH1 ] | lia ].
    + apply Nat.ltb_ge in E. rewrite H in IH1. cbn [List.app].
      split; [ exact IH1 | lia ].
Qed.

(** The times of a spaced list lie more than 10 s after [previous] and, the
    first apart, more than 10 s after the first. *)
Lemma spaced_window (previous T : Z) (times : list Z) :
  spaced previous times ->
  (forall t, In t times -> (T <= t <= T + 10000)%Z) ->
  (length times <= 1)%nat.
Proof.
  destruct times as [ | t1 [ | t2 rest ] ]; simpl; intros Hs Hw; try lia.
  destruct Hs as [_ [H _]].
  pose proof (Hw t1 (or_introl eq_refl)).
  pose proof (Hw t2 (or_intror (or_introl eq_refl))). lia.
Qed.

Lemma requestTimes_In (evs : list Event) (sys : System) (t : Z) :
  In t (requestTimes evs sys) ->
  exists watchId latitude longitude,
    In (Position watchId latitude longitude t) evs.
Proof.
  revert sys. induction evs as [ | ev evs IH ]; intros sys; simpl.
  - intros [].
  - intros H. apply in_app_or in H. destruct H as [H | H].
    + destruct ev as [ | watchId latitude longitude now | | ];
        try destruct H.
      destruct (0 <? _)%nat; [ | destruct H ].
      destruct H as [<- | []]. exists watchId, latitude, longitude. auto.
    + destruct (IH _ H) as [w [la [lo Hin]]]. exists w, la, lo. auto.
Qed.

(** X5: along any run of events, from any state, the position events that
    issue a route request do so each more than 10 s (by the [now] of the
    callback) after the one before, the first more than 10 s after
    [lastRecalcTimeRef]; the ref is never reset, so this holds across
    [goBack] and a new destination too. In particular the fixes of any
    10 s window issue at most one request between them. *)
Theorem requests_more_than_10s_apart :
  (forall evs sys,
      spaced (lastRecalcTimeRef (app sys)) (requestTimes evs sys) /\
      length (requestTimes evs sys) = requests (snd (run evs sys))) /\
  (forall evs sys T,
      (forall watchId latitude longitude now,
          In (Position watchId latitude longitude now) evs ->
          (T <= now <= T + 10000)%Z) ->
      (requests (snd (run evs sys)) <= 1)%nat).
Proof.
  split; [ exact requestTimes_spaced | ].
  intros evs sys T Hw.
  destruct (requestTimes_spaced evs sys) as [Hs <-].
  apply (spaced_window _ T _ Hs).
  intros t Ht. destruct (requestTimes_In _ _ _ Ht) as [w [la [lo Hin]]].
  apply (Hw _ _ _ _ Hin).
Qed.

(** Four fixes south of the sample route within 9 s, the view going back
    to the grid and a new route loaded in between. *)
Lemma requests_more_than_10s_apart_witness :
  (requests (snd (run [Position 0 (-0.001) 0 Sample.t0;
                       Position 0 (-0.001) 0 (Sample.t0 + 3000);
                       RecalcSettled ResponseError;
                       Position 0 (-0.001) 0 (Sample.t0 + 6000);
                       GoBack;
                       RouteLoaded Sample.pub Sample.route0;
                       Position 1 (-0.001) 0 (Sample.t0 + 9000)]
                      Sample.session0)) <= 1)%nat.
Proof.
  destruct requests_more_than_10s_apart as [_ H].
  apply (H _ Sample.session0 Sample.t0).
  intros watchId latitude longitude now Hin. simpl in Hin.
  repeat (destruct Hin as [Hin | Hin];
          [ first [ discriminate
                  | injection Hin as _ _ _ <-; unfold Sample.t0; lia ] | ]).
  destruct Hin.
Defined.

(** ** The route the watch holds *)

(** The effects of the callback depend on the state through [watchIdRef]
    and [lastRecalcTimeRef] only. *)
Lemma positionCallback_effects
  (destination : SearchResult.t) (currentRoute : Route.t)
  (latitude longitude : R) (now : Z) (s1 s2 : AppState) :
  watchIdRef s1 = watchIdRef s2 ->
  lastRecalcTimeRef s1 = lastRecalcTimeRef s2 ->
  snd (positionCallback destination currentRoute latitude longitude now s1) =
  snd (positionCallback destination currentRoute latitude longitude now s2).
Proof.
  intros Hw Ht. rewrite !positionCallback_outcome. unfold outcome.
  rewrite Hw, Ht.
  destruct (arrivalTest _ _).
  - destruct (watchIdRef s2); reflexivity.
  - destruct (offRouteTest _ _ && _); reflexivity.
Qed.

Lemma recalculateRoute_settled_refs (response : RouteResponse) (s : AppState) :
  watchIdRef (recalculateRoute_settled response s) = watchIdRef s /\
  lastRecalcTimeRef (recalculateRoute_settled response s) = lastRecalcTimeRef s.
Proof. destruct response; split; reflexivity. Qed.

(** X6: a settled recalculation does not reach the position watch. The
    browser keeps the same watches with the same captured route, and a
    position event after the response has the effects (route requests,
    watch cleared) it would have had without it. After a successful
    response the step index, reset to 0, goes on moving by the steps of
    the route the watch was started with, not of the route installed. *)
Theorem recalculation_does_not_reach_the_watch :
  (forall sys response,
      watches (fst (step (RecalcSettled response) sys)) = watches sys) /\
  (forall sys response watchId latitude longitude now,
      snd (step (Position watchId latitude longitude now)
                (fst (step (RecalcSettled response) sys))) =
      snd (step (Position watchId latitude longitude now) sys)) /\
  (forall sys routeData watchId w latitude longitude now,
      pending sys <> [] ->
      find_watch watchId (watches sys) = Some w ->
      let sys1 := fst (step (RecalcSettled (ResponseOk routeData)) sys) in
      let sys2 := fst (step (Position watchId latitude longitude now) sys1) in
      route (app sys1) = Some routeData /\
      currentStepIndex (app sys1) = 0%nat /\
      route (app sys2) = Some routeData /\
      currentStepIndex (app sys2) =
      (if arrivalTest (watch_destination w) (Location.mk latitude longitude)
       then 0%nat
       else stepUpdater (watch_route w) (Location.mk latitude longitude) 0)).
Proof.
  split; [ | split ].
  - intros sys response. simpl. destruct (pending sys); reflexivity.
  - intros sys response watchId latitude longitude now.
    simpl (step (RecalcSettled response) sys).
    destruct (pending sys) as [ | request rest ]; [ reflexivity | ].
    cbn [fst].
    destruct (find_watch watchId (watches sys)) as [ w | ] eqn:Hw.
    + rewrite (step_Position_found sys _ _ _ _ _ Hw).
      rewrite (step_Position_found
                 (mkSystem (recalculateRoute_settled response (app sys))
                           (watches sys) (nextWatchId sys) rest) _ w)
        by exact Hw.
      cbn [snd app].
      destruct (recalculateRoute_settled_refs response (app sys)) as [H1 H2].
      apply positionCallback_effects; assumption.
    + rewrite (step_Position_missing sys _ _ _ _ Hw).
      rewrite step_Position_missing by exact Hw. reflexivity.
  - intros sys routeData watchId w latitude longitude now Hp Hw sys1 sys2.
    assert (E : sys1 =
                mkSystem (recalculateRoute_settled (ResponseOk routeData)
                                                   (app sys))
                         (watches sys) (nextWatchId sys) (tl (pending sys))).
    { unfold sys1. simpl. destruct (pending sys); [ contradiction | ].
      reflexivity. }
    split; [ rewrite E; reflexivity | ].
    split; [ rewrite E; reflexivity | ].
    assert (Hw1 : find_watch watchId (watches sys1) = Some w)
      by (rewrite E; exact Hw).
    unfold sys2. rewrite (app_step_Position _ _ _ _ _ _ Hw1).
    rewrite positionCallback_route, positionCallback_index.
    rewrite E. split; reflexivity.
Qed.

(** On the sample session: the pending request is answered with the route
    from 111 m south; a fix at the end of the first step of the old route,
    which is no step end of the new one, moves the index to 1. *)
Lemma recalculation_does_not_reach_the_watch_witness :
  let sys1 := fst (step (RecalcSettled (ResponseOk Sample.route1))
                        Sample.recalculating0) in
  let sys2 := fst (step (Position 0 0.001 0 (Sample.t0 + 5000)) sys1) in
  route (app sys2) = Some Sample.route1 /\
  currentStepIndex (app sys2) = 1%nat /\
  stepEndPoint Sample.route1 0 = Some (0, 0.002).
Proof.
  destruct recalculation_does_not_reach_the_watch as [_ [_ H]].
  assert (Hp : pending Sample.recalculating0 <> [])
    by (rewrite recalculating0_eq; discriminate).
  assert (Hw : find_watch 0 (watches Sample.recalculating0) =
               Some (mkWatch Sample.pub Sample.route0))
    by (rewrite recalculating0_eq; reflexivity).
  destruct (H Sample.recalculating0 Sample.route1 0%nat _ 0.001 0
              (Sample.t0 + 5000)%Z Hp Hw) as [_ [_ [Hr Hi]]].
  cbv zeta. split; [ exact Hr | ]. split; [ | reflexivity ].
  rewrite Hi. cbn [watch_destination watch_route].
  rewrite atStepEnd_not_arrived.
  apply stepUpdater_advances. exact atStepEnd_near_end_of_step_0.
Defined.

(** ** The step index stays on a step *)

Lemma stepUpdater_bound (r : Route.t) (loc : Location.t) (i : nat) :
  (i < length (Route.steps r))%nat ->
  (stepUpdater r loc i < length (Route.steps r))%nat.
Proof.
  intros Hi. destruct (stepUpdater_cases r loc i) as [-> | E];
    [ exact Hi | ].
  rewrite E. apply stepUpdater_advances in E. destruct E as [_ Hn].
  unfold notLastStep in Hn. lia.
Qed.

Lemma step_Position_bound
  (ev : Event) (sys : System) (watchId : nat) (w : Watch) :
  (watches sys = [(watchId, w)] /\ watchIdRef (app sys) = Some watchId) \/
  watches sys = [] ->
  is_position ev = true ->
  (currentStepIndex (app sys) < length (Route.steps (watch_route w)))%nat ->
  ((watches (fst (step ev sys)) = [(watchId, w)] /\
    watchIdRef (app (fst (step ev sys))) = Some watchId) \/
   watches (fst (step ev sys)) = []) /\
  (currentStepIndex (app (fst (step ev sys)))
   < length (Route.steps (watch_route w)))%nat /\
  route (app (fst (step ev sys))) = route (app sys).
Proof.
  intros Hws Hev Hi.
  destruct ev as [ | id latitude longitude now | | ]; try discriminate.
  destruct (find_watch id (watches sys)) as [ w0 | ] eqn:Hw.
  - destruct Hws as [[Hws Href] | Hws]; [ | rewrite Hws in Hw; discriminate ].
    pose proof Hw as Hw'. rewrite Hws in Hw'.
    apply find_watch_single in Hw'. destruct Hw' as [<- <-].
    rewrite (step_Position_found _ _ _ _ _ _ Hw).
    rewrite positionCallback_outcome.
    destruct (outcome _ _ _ now (app sys)).
    + rewrite Href. cbn [fst snd fold_left perform with_app watches app].
      rewrite Hws, clearWatch_single.
      split; [ right; reflexivity | ]. split; [ exact Hi | reflexivity ].
    + cbn [fst snd fold_left perform with_app watches app].
      split; [ left; split; [ exact Hws | exact Href ] | ].
      split; [ apply stepUpdater_bound, Hi | reflexivity ].
    + cbn [fst snd fold_left perform with_app watches app].
      split; [ left; split; [ exact Hws | exact Href ] | ].
      split; [ apply stepUpdater_bound, Hi | reflexivity ].
  - rewrite (step_Position_missing _ _ _ _ _ Hw). cbn [fst].
    split; [ exact Hws | ]. split; [ exact Hi | reflexivity ].
Qed.

Lemma run_Position_bound
  (evs : list Event) (sys : System) (watchId : nat) (w : Watch) :
  (watches sys = [(watchId, w)] /\ watchIdRef (app sys) = Some watchId) \/
  watches sys = [] ->
  forallb is_position evs = true ->
  (currentStepIndex (app sys) < length (Route.steps (watch_route w)))%nat ->
  (currentStepIndex (app (fst (run evs sys)))
   < length (Route.steps (watch_route w)))%nat /\
  route (app (fst (run evs sys))) = route (app sys).
Proof.
  revert sys. induction evs as [ | ev evs IH ]; intros sys Hws Hevs Hi.
  - split; [ exact Hi | reflexivity ].
  - simpl in Hevs. apply andb_prop in Hevs. destruct Hevs as [Hev Hevs].
    rewrite run_cons. cbn [fst].
    destruct (step_Position_bound ev sys watchId w Hws Hev Hi)
      as [Hws1 [Hi1 Hr1]].
    destruct (IH _ Hws1 Hevs Hi1) as [Hi2 Hr2].
    split; [ exact Hi2 | congruence ].
Qed.

(** X7: step progression never leaves the steps of the route. The updater
    keeps an index that is on a step on a step, and an index it advances
    to is the index of an existing step. So in a session whose installed
    route is the one the watch was started with, whatever position events
    arrive, the current step the navigation view reads,
    [route.steps[currentStepIndex]], exists. *)
Theorem step_index_stays_on_a_step :
  (forall r loc i,
      (i < length (Route.steps r))%nat ->
      (stepUpdater r loc i < length (Route.steps r))%nat) /\
  (forall r loc i,
      stepUpdater r loc i <> i ->
      exists st, nth_error (Route.steps r) (stepUpdater r loc i) = Some st) /\
  (forall evs sys watchId w installed,
      watches sys = [(watchId, w)] ->
      watchIdRef (app sys) = Some watchId ->
      route (app sys) = Some installed ->
      watch_route w = installed ->
      (currentStepIndex (app sys) < length (Route.steps installed))%nat ->
      forallb is_position evs = true ->
      route (app (fst (run evs sys))) = Some installed /\
      exists st,
        nth_error (Route.steps installed)
                  (currentStepIndex (app (fst (run evs sys)))) = Some st).
Proof.
  split; [ exact stepUpdater_bound | ]. split.
  - intros r loc i Hne.
    destruct (stepUpdater_cases r loc i) as [E | E]; [ contradiction | ].
    pose proof E as E'. apply stepUpdater_advances in E'.
    destruct E' as [_ Hn]. unfold notLastStep in Hn.
    destruct (nth_error (Route.steps r) (stepUpdater r loc i)) as [ st | ] eqn:N;
      [ exists st; reflexivity | ].
    apply nth_error_None in N. lia.
  - intros evs sys watchId w installed Hws Href Hr <- Hi Hevs.
    destruct (run_Position_bound evs sys watchId w
                (or_introl (conj Hws Href)) Hevs Hi) as [Hi' Hr'].
    split; [ congruence | ].
    destruct (nth_error (Route.steps (watch_route w))
                (currentStepIndex (app (fst (run evs sys))))) as [ st | ] eqn:N;
      [ exists st; reflexivity | ].
    apply nth_error_None in N. lia.
Qed.

(** On the sample session, three fixes along the route. *)
Lemma step_index_stays_on_a_step_witness :
  exists st,
    nth_error (Route.steps Sample.route0)
      (currentStepIndex
         (app (fst (run [Position 0 0.001 0 Sample.t0;
                         Position 0 0.001 0 (Sample.t0 + 1000);
                         Position 0 0.002 0 (Sample.t0 + 2000)]
                        Sample.session0)))) = Some st.
Proof.
  destruct step_index_stays_on_a_step as [_ [_ H]].
  destruct (H [Position 0 0.001 0 Sample.t0;
               Position 0 0.001 0 (Sample.t0 + 1000)%Z;
               Position 0 0.002 0 (Sample.t0 + 2000)%Z]
              Sample.session0 0%nat (mkWatch Sample.pub Sample.route0)
              Sample.route0 eq_refl eq_refl eq_refl eq_refl)
    as [_ Hst].
  - simpl. lia.
  - reflexivity.
  - exact Hst.
Defined.

(** ** Invariants of the page *)

Lemma watch_inv_with_app (a : AppState) (sys : System) :
  watchIdRef a = watchIdRef (app sys) ->
  watch_inv sys -> watch_inv (with_app a sys).
Proof. unfold watch_inv. simpl. intros ->. auto. Qed.

Lemma watch_inv_update_app (f : AppState -> AppState) (p : Page) :
  (forall s, watchIdRef (f s) = watchIdRef s) ->
  watch_inv (system p) -> watch_inv (system (update_app f p)).
Proof. intros Hf. apply watch_inv_with_app. apply Hf. Qed.

Lemma watch_inv_search_settled (response : Fetched SearchData.t) (p : Page) :
  watch_inv (system p) ->
  watch_inv (system (handleAmenitySelect_settled response p)).
Proof.
  intros H. unfold handleAmenitySelect_settled.
  destruct response as [ status body | ];
    [ | apply watch_inv_update_app; auto ].
  destruct (status =? 429)%Z; [ apply watch_inv_update_app; auto | ].
  destruct (negb (status_ok status)); [ apply watch_inv_update_app; auto | ].
  destruct body as [ data | ]; [ | apply watch_inv_update_app; auto ].
  destruct (SearchData.count data =? 0)%Z;
    [ apply watch_inv_update_app; auto | ].
  exact (watch_inv_update_app (setView results) p (fun _ => eq_refl) H).
Qed.

Lemma watch_inv_route_settled
  (result : SearchResult.t) (response : Fetched Route.t) (p : Page) :
  watch_inv (system p) ->
  watch_inv (system (handleDestinationSelect_settled result response p)).
Proof.
  intros H. unfold handleDestinationSelect_settled.
  destruct response as [ status body | ];
    [ | apply watch_inv_update_app; auto ].
  destruct (status =? 429)%Z; [ apply watch_inv_update_app; auto | ].
  destruct (negb (status_ok status)); [ apply watch_inv_update_app; auto | ].
  destruct body as [ routeData | ]; [ | apply watch_inv_update_app; auto ].
  apply (watch_inv_step (RouteLoaded result routeData)), H.
Qed.

Lemma watch_inv_page_step (ev : PageEvent) (p : Page) :
  watch_inv (system p) -> watch_inv (system (page_step ev p)).
Proof.
  intros H. destruct ev; simpl;
    try (apply watch_inv_update_app; [ reflexivity | exact H ]);
    try exact H.
  - unfold handleAmenitySelect. destruct (location (page_app p)); exact H.
  - destruct (pendingSearches p); [ exact H | ].
    apply watch_inv_search_settled, H.
  - unfold handleDestinationSelect. destruct (location (page_app p)); exact H.
  - destruct (pendingRoutes p); [ exact H | ].
    apply watch_inv_route_settled, H.
  - apply (watch_inv_step (Position watchId latitude longitude now)), H.
  - apply (watch_inv_step (RecalcSettled response)), H.
  - apply (watch_inv_step GoBack), H.
Qed.

Lemma page_run_snoc (evs : list PageEvent) (ev : PageEvent) (p : Page) :
  page_run (evs ++ [ev]) p = page_step ev (page_run evs p).
Proof. unfold page_run. rewrite fold_left_app. reflexivity. Qed.

(** X8: the page never holds more than one position watch. In every state
    the page reaches from its mount, by any events in any order, the
    browser has either no watch and [watchIdRef] is null, or exactly one
    watch, the one whose id [watchIdRef] holds: starting a watch clears
    the one before, and arrival and [goBack] clear the one there is. *)
Theorem page_holds_at_most_one_watch :
  forall saved evs,
    let sys := system (page_run evs (initialPage saved)) in
    watch_inv sys /\
    (length (watches sys) <= 1)%nat /\
    (watchIdRef (app sys) = None <-> watches sys = []).
Proof.
  intros saved evs sys.
  assert (H : watch_inv sys).
  { unfold sys. induction evs as [ | ev evs IH ] using rev_ind.
    - reflexivity.
    - rewrite page_run_snoc. apply watch_inv_page_step, IH. }
  split; [ exact H | ]. unfold watch_inv in H.
  destruct (watchIdRef (app sys)) as [ watchId | ].
  - destruct H as [w [-> _]]. split; [ simpl; lia | ].
    split; discriminate.
  - rewrite H. split; [ simpl; lia | ]. split; reflexivity.
Qed.

Lemma spinner_inv_search_settled
  (response : Fetched SearchData.t) (p : Page) :
  spinner_inv (handleAmenitySelect_settled response p).
Proof.
  unfold handleAmenitySelect_settled.
  destruct response as [ status body | ];
    [ | split; discriminate ].
  destruct (status =? 429)%Z; [ split; discriminate | ].
  destruct (negb (status_ok status)); [ split; discriminate | ].
  destruct body as [ data | ]; [ | split; discriminate ].
  destruct (SearchData.count data =? 0)%Z; split; discriminate.
Qed.

Lemma spinner_inv_route_settled
  (result : SearchResult.t) (response : Fetched Route.t) (p : Page) :
  spinner_inv (handleDestinationSelect_settled result response p).
Proof.
  unfold handleDestinationSelect_settled.
  destruct response as [ status body | ];
    [ | split; discriminate ].
  destruct (status =? 429)%Z; [ split; discriminate | ].
  destruct (negb (status_ok status)); [ split; discriminate | ].
  destruct body as [ routeData | ]; [ | split; discriminate ].
  split; simpl; destruct (watchIdRef (app (system p))); discriminate.
Qed.

Lemma spinner_inv_page_step (ev : PageEvent) (p : Page) :
  spinner_inv p -> spinner_inv (page_step ev p).
Proof.
  intros H.
  destruct ev; cbn [page_step]; try (split; discriminate).
  - unfold handleAmenitySelect.
    destruct (location (page_app p)); [ | exact H ].
    split; [ discriminate | ]. intros _. left. simpl. lia.
  - destruct (pendingSearches p); [ exact H | ].
    apply spinner_inv_search_settled.
  - unfold handleDestinationSelect.
    destruct (location (page_app p)); [ | exact H ].
    split; [ discriminate | ]. intros _. right. simpl.
    destruct (pendingRoutes p); discriminate.
  - destruct (pendingRoutes p); [ exact H | ].
    apply spinner_inv_route_settled.
  - destruct H as [Hr Hs].
    destruct (step_Position_view_pending (system p) watchId latitude
                longitude now) as [[more Hp] Hv].
    unfold spinner_inv, page_app. cbn [system with_system pendingSearches
                                       pendingRoutes].
    split; intros Hview.
    + destruct Hv as [Hv | [Hv | [_ Hv]]]; [ | congruence | exact Hv ].
      rewrite Hp. rewrite Hv in Hview. specialize (Hr Hview).
      destruct (pending (system p)); [ contradiction | discriminate ].
    + destruct Hv as [Hv | [Hv | [Hv _]]]; [ | congruence | congruence ].
      apply Hs. unfold page_app. congruence.
  - destruct H as [Hr Hs].
    unfold spinner_inv, page_app. cbn [system with_system pendingSearches
                                       pendingRoutes].
    destruct (pending (system p)) as [ | request rest ] eqn:P.
    + simpl. rewrite P. split; [ intros Hview | exact Hs ].
      specialize (Hr Hview). contradiction.
    + simpl. rewrite P. simpl. split; destruct response; discriminate.
  - exact H.
Qed.

(** X9: the two views that offer no button, [searching] and
    [recalculating], are up only while a request that replaces the view
    when it settles is pending: a recalculation request for
    [recalculating], a search or route request for [searching]. This
    holds in every state the page reaches from its mount. *)
Theorem spinner_waits_for_a_request :
  forall saved evs,
    let p := page_run evs (initialPage saved) in
    (view (page_app p) = recalculating -> pending (system p) <> []) /\
    (view (page_app p) = searching ->
     (0 < pendingSearches p)%nat \/ pendingRoutes p <> []) /\
    (render p = SearchingScreen ->
     pending (system p) <> [] \/ (0 < pendingSearches p)%nat \/
     pendingRoutes p <> []).
Proof.
  intros saved evs p.
  assert (H : spinner_inv p).
  { unfold p. induction evs as [ | ev evs IH ] using rev_ind.
    - split; discriminate.
    - rewrite page_run_snoc. apply spinner_inv_page_step, IH. }
  destruct H as [Hr Hs]. split; [ exact Hr | ]. split; [ exact Hs | ].
  unfold render. intros H.
  destruct (view (page_app p)) eqn:V; try discriminate.
  - right. apply Hs. reflexivity.
  - destruct (location (page_app p)), (searchResults p); discriminate.
  - destruct (location (page_app p)), (route (page_app p)),
             (selectedDestination p); discriminate.
  - left. apply Hr. reflexivity.
Qed.

(** ** [goBack] *)

Lemma goBack_watches (sys : System) :
  watch_inv sys -> watches (goBack sys) = [].
Proof.
  unfold watch_inv, goBack. intros H. simpl.
  destruct (watchIdRef (app sys)) as [ old | ].
  - destruct H as [w [-> _]]. apply clearWatch_single.
  - exact H.
Qed.

(** X10: [goBack] ends the session. In a state the page can reach it
    leaves no watch, no route, no destination, no search results and the
    grid on screen, and keeps the location, the unit and the requests in
    flight (they are not cancelled). After it position events change
    nothing, and going back again changes nothing. *)
Theorem goBack_ends_the_session :
  forall p,
    watch_inv (system p) ->
    let q := page_step BackClicked p in
    (watches (system q) = [] /\ watchIdRef (page_app q) = None /\
     route (page_app q) = None /\ selectedDestination q = None /\
     searchResults q = [] /\ selectedAmenity q = None /\
     view (page_app q) = grid /\ render q = GridScreen) /\
    (location (page_app q) = location (page_app p) /\
     distanceUnit q = distanceUnit p /\
     lastRecalcTimeRef (page_app q) = lastRecalcTimeRef (page_app p) /\
     pending (system q) = pending (system p) /\
     pendingSearches q = pendingSearches p /\
     pendingRoutes q = pendingRoutes p) /\
    (forall watchId latitude longitude now,
        page_step (PositionFix watchId latitude longitude now) q = q) /\
    page_step BackClicked q = q.
Proof.
  intros p Hinv q.
  assert (Hw : watches (system q) = []) by (apply goBack_watches, Hinv).
  split; [ repeat split; try reflexivity; exact Hw | ].
  split; [ repeat split; reflexivity | ].
  split.
  - intros watchId latitude longitude now. cbn [page_step].
    rewrite step_Position_missing by (rewrite Hw; reflexivity).
    reflexivity.
  - unfold q. cbn [page_step]. unfold page_goBack. cbn [system].
    f_equal; reflexivity.
Qed.

(** On the sample session, while the recalculation is pending. *)
Lemma goBack_ends_the_session_witness :
  let q := page_step BackClicked
             (mkPage Sample.recalculating0 feet (Some amenity_pub)
                     [Sample.pub] (Some Sample.pub) 0 []) in
  watches (system q) = [] /\
  pending (system q) = pending Sample.recalculating0 /\
  page_step (PositionFix 0 (-0.001) 0 (Sample.t0 + 20000)) q = q.
Proof.
  assert (Hinv : watch_inv Sample.recalculating0).
  { rewrite recalculating0_eq. exists (mkWatch Sample.pub Sample.route0).
    split; [ reflexivity | simpl; lia ]. }
  pose proof (goBack_ends_the_session
                (mkPage Sample.recalculating0 feet (Some amenity_pub)
                        [Sample.pub] (Some Sample.pub) 0 []) Hinv)
    as [[Hw _] [[_ [_ [_ [Hp _]]]] [Hpos _]]].
  cbv zeta. split; [ exact Hw | ]. split; [ exact Hp | apply Hpos ].
Defined.

(** ** Searching and choosing a destination *)

Lemma step_location (ev : Event) (sys : System) :
  location (app (fst (step ev sys))) = None -> location (app sys) = None.
Proof.
  destruct ev as [ result routeData | watchId latitude longitude now
                 | response | ].
  - simpl. destruct (watchIdRef (app sys)); auto.
  - destruct (find_watch watchId (watches sys)) as [ w | ] eqn:Hw.
    + rewrite (app_step_Position _ _ _ _ _ _ Hw), positionCallback_outcome.
      destruct (outcome _ _ _ now (app sys)); try discriminate.
      destruct (watchIdRef (app sys)); discriminate.
    + rewrite (step_Position_missing _ _ _ _ _ Hw). auto.
  - simpl. destruct (pending sys); [ auto | ]. destruct response; auto.
  - auto.
Qed.

Lemma page_step_location (ev : PageEvent) (p : Page) :
  location (page_app (page_step ev p)) = None -> location (page_app p) = None.
Proof.
  destruct ev; cbn [page_step]; try (intros H; exact H); try discriminate.
  - unfold handleAmenitySelect.
    destruct (location (page_app p)) eqn:E; intros H;
      [ rewrite <- E; exact H | reflexivity ].
  - destruct (pendingSearches p); [ auto | ].
    unfold handleAmenitySelect_settled.
    destruct response as [ status body | ]; [ | auto ].
    destruct (status =? 429)%Z; [ auto | ].
    destruct (negb (status_ok status)); [ auto | ].
    destruct body as [ data | ]; [ | auto ].
    destruct (SearchData.count data =? 0)%Z; auto.
  - unfold handleDestinationSelect.
    destruct (location (page_app p)) eqn:E; intros H;
      [ rewrite <- E; exact H | reflexivity ].
  - destruct (pendingRoutes p) as [ | result rest ]; [ auto | ].
    unfold handleDestinationSelect_settled.
    destruct response as [ status body | ]; [ | auto ].
    destruct (status =? 429)%Z; [ auto | ].
    destruct (negb (status_ok status)); [ auto | ].
    destruct body as [ routeData | ]; [ | auto ].
    apply (step_location (RouteLoaded result routeData)).
  - apply (step_location (Position watchId latitude longitude now)).
  - apply (step_location (RecalcSettled response)).
Qed.

(** X11: a search or a route is requested only from a known location.
    Without one, [handleAmenitySelect] and [handleDestinationSelect]
    change nothing and request nothing; with one, each issues one request
    and puts up the searching view. No event ever forgets the location:
    once the page has one it keeps one. *)
Theorem selection_needs_a_location :
  (forall amenityId result p,
      location (page_app p) = None ->
      handleAmenitySelect amenityId p = p /\
      handleDestinationSelect result p = p) /\
  (forall amenityId result p,
      location (page_app p) <> None ->
      let a := handleAmenitySelect amenityId p in
      let d := handleDestinationSelect result p in
      (view (page_app a) = searching /\
       pendingSearches a = S (pendingSearches p) /\
       selectedAmenity a = Some amenityId) /\
      (view (page_app d) = searching /\
       pendingRoutes d = pendingRoutes p ++ [result] /\
       selectedDestination d = Some result)) /\
  (forall evs p,
      location (page_app p) <> None ->
      location (page_app (page_run evs p)) <> None).
Proof.
  split; [ | split ].
  - intros amenityId result p H.
    unfold handleAmenitySelect, handleDestinationSelect. rewrite H. auto.
  - intros amenityId result p H a d. subst a d.
    unfold handleAmenitySelect, handleDestinationSelect.
    destruct (location (page_app p)); [ | contradiction ].
    repeat split.
  - intros evs. induction evs as [ | ev evs IH ] using rev_ind; intros p H.
    + exact H.
    + rewrite page_run_snoc. intros Hn.
      apply page_step_location in Hn. exact (IH p H Hn).
Qed.

(** At mount, and once the first fix is there. *)
Lemma selection_needs_a_location_witness :
  handleAmenitySelect amenity_pub (initialPage None) = initialPage None /\
  pendingSearches
    (page_run [LocationAcquired 51.5 (-0.1); AmenitySelected amenity_pub]
              (initialPage None)) = 1%nat.
Proof.
  destruct selection_needs_a_location as [H0 [H1 _]].
  split.
  - apply (H0 amenity_pub Sample.pub (initialPage None)). reflexivity.
  - destruct (H1 amenity_pub Sample.pub
                 (page_step (LocationAcquired 51.5 (-0.1)) (initialPage None)))
      as [[_ [Hp _]] _].
    + discriminate.
    + exact Hp.
Defined.

(** X12: a failed request changes the view and nothing else. When the
    search request or the route request of [handleDestinationSelect]
    fails (a status that is not ok, a body that does not parse, a
    rejected fetch), the view becomes [rate_limited] for status 429 and
    [network_error] otherwise, and the search results, the route, the
    step index, the destination and the watch are left as they were. *)
Theorem failed_request_changes_the_view_only :
  (forall response p,
      failed response = true ->
      handleAmenitySelect_settled response p =
      update_app (setView (failure_view response)) p) /\
  (forall result response p,
      failed response = true ->
      handleDestinationSelect_settled result response p =
      update_app (setView (failure_view response)) p) /\
  (forall (v : AppView) p,
      let q := update_app (setView v) p in
      view (page_app q) = v /\
      route (page_app q) = route (page_app p) /\
      currentStepIndex (page_app q) = currentStepIndex (page_app p) /\
      location (page_app q) = location (page_app p) /\
      watches (system q) = watches (system p) /\
      watchIdRef (page_app q) = watchIdRef (page_app p) /\
      searchResults q = searchResults p /\
      selectedDestination q = selectedDestination p) /\
  (forall (body : option Route.t), failed (Responded 429 body) = true).
Proof.
  split; [ | split; [ | split ] ].
  - intros response p H. unfold handleAmenitySelect_settled, failure_view.
    destruct response as [ status body | ]; [ | reflexivity ].
    destruct (status =? 429)%Z; [ reflexivity | ].
    simpl in H. destruct (negb (status_ok status)); [ reflexivity | ].
    destruct body; [ discriminate | reflexivity ].
  - intros result response p H.
    unfold handleDestinationSelect_settled, failure_view.
    destruct response as [ status body | ]; [ | reflexivity ].
    destruct (status =? 429)%Z; [ reflexivity | ].
    simpl in H. destruct (negb (status_ok status)); [ reflexivity | ].
    destruct body; [ discriminate | reflexivity ].
  - intros v p q. repeat split.
  - reflexivity.
Qed.

(** The route request to the pub answered 429, and a search answered 503. *)
Lemma failed_request_changes_the_view_only_witness :
  view (page_app
          (handleDestinationSelect_settled Sample.pub (Responded 429 None)
             (mkPage Sample.start feet (Some amenity_pub) [Sample.pub]
                     (Some Sample.pub) 0 []))) = rate_limited /\
  searchResults
    (handleAmenitySelect_settled (Responded 503 None)
       (mkPage Sample.start feet (Some amenity_pub) [Sample.pub]
               None 0 [])) = [Sample.pub].
Proof.
  destruct failed_request_changes_the_view_only as [Hs [Hr _]].
  split.
  - rewrite (Hr Sample.pub (Responded 429 None) _ eq_refl). reflexivity.
  - rewrite (Hs (Responded 503 None) _ eq_refl). reflexivity.
Defined.

Lemma status_ok_not_429 (status : Z) :
  status_ok status = true -> (status =? 429)%Z = false.
Proof.
  unfold status_ok. intros H. apply andb_prop in H. destruct H as [_ H].
  apply Z.leb_le in H. apply Z.eqb_neq. lia.
Qed.

(** X13: an ok answer to the search. With [count] 0 the view becomes
    [no_results] and the results held are not replaced, whatever list the
    answer carries; otherwise the view becomes [results] and the list of
    the answer is held. The results map is then on screen exactly when
    that list is not empty and the location is known; with an empty list
    the render falls through to the grid. *)
Theorem search_answer_and_the_map :
  forall status data p,
    status_ok status = true ->
    let q := handleAmenitySelect_settled (Responded status (Some data)) p in
    (SearchData.count data = 0%Z ->
     q = update_app (setView no_results) p /\ render q = NoResultsScreen) /\
    (SearchData.count data <> 0%Z ->
     view (page_app q) = results /\
     searchResults q = SearchData.results data /\
     system q = system (update_app (setView results) p) /\
     (render q = ResultsMap <->
      location (page_app p) <> None /\ SearchData.results data <> []) /\
     (render q = ResultsMap \/ render q = GridScreen)).
Proof.
  intros status data p Hok q. subst q. unfold handleAmenitySelect_settled.
  rewrite (status_ok_not_429 _ Hok), Hok. cbn [negb].
  split; intros Hc.
  - rewrite Hc. cbn [Z.eqb]. split; reflexivity.
  - apply Z.eqb_neq in Hc. rewrite Hc.
    split; [ reflexivity | ]. split; [ reflexivity | ].
    split; [ reflexivity | ].
    unfold render. cbn.
    destruct (location (page_app p)), (SearchData.results data);
      (split; [ split; [ intros; split; congruence
                       | intros [H1 H2]; congruence ] | auto ]).
Qed.

(** One pub found, and an answer that counts one but lists none. *)
Lemma search_answer_and_the_map_witness :
  render (handleAmenitySelect_settled
            (Responded 200 (Some (SearchData.mk 1 [Sample.pub])))
            (mkPage Sample.start feet (Some amenity_pub) [] None 0 [])) =
  ResultsMap /\
  render (handleAmenitySelect_settled
            (Responded 200 (Some (SearchData.mk 1 [])))
            (mkPage Sample.start feet (Some amenity_pub) [] None 0 [])) =
  GridScreen.
Proof.
  pose proof (search_answer_and_the_map 200%Z
                (SearchData.mk 1 [Sample.pub])
                (mkPage Sample.start feet (Some amenity_pub) [] None 0 [])
                eq_refl) as [_ H1].
  pose proof (search_answer_and_the_map 200%Z
                (SearchData.mk 1 [])
                (mkPage Sample.start feet (Some amenity_pub) [] None 0 [])
                eq_refl) as [_ H2].
  destruct H1 as [_ [_ [_ [[_ Hmap] _]]]]; [ discriminate | ].
  destruct H2 as [_ [_ [_ [[Hgrid _] [E | E]]]]]; [ discriminate | | ].
  - destruct (Hgrid E) as [_ Hne]. contradiction Hne. reflexivity.
  - split; [ apply Hmap; split; discriminate | exact E ].
Defined.

(** X14: choosing a destination starts the session. From a state the page
    can reach, with a location and no other route request in flight,
    [handleDestinationSelect] followed by an ok answer with a route
    installs that route, puts the step index at 0 and the view at
    [navigating], and leaves exactly one watch, a new one, that holds the
    chosen destination and that route; the navigation view is on
    screen. *)
Theorem chosen_destination_starts_the_session :
  forall result status routeData p,
    status_ok status = true ->
    watch_inv (system p) ->
    location (page_app p) <> None ->
    pendingRoutes p = [] ->
    let q := page_run [DestinationSelected result;
                       RouteSettled (Responded status (Some routeData))] p in
    route (page_app q) = Some routeData /\
    currentStepIndex (page_app q) = 0%nat /\
    view (page_app q) = navigating /\
    selectedDestination q = Some result /\
    watchIdRef (page_app q) = Some (nextWatchId (system p)) /\
    watches (system q) =
    [(nextWatchId (system p), mkWatch result routeData)] /\
    pendingRoutes q = [] /\
    render q = NavigationView.
Proof.
  intros result status routeData p Hok Hinv Hloc Hpending q. subst q.
  unfold page_run. cbn [fold_left page_step].
  unfold handleDestinationSelect.
  destruct (location (page_app p)) as [ l | ] eqn:L; [ | contradiction ].
  cbn [pendingRoutes update_app with_system]. rewrite Hpending.
  cbn [List.app]. unfold handleDestinationSelect_settled.
  rewrite (status_ok_not_429 _ Hok), Hok. cbn [negb].
  assert (Hws : watches
                  (fst (step (RouteLoaded result routeData)
                          (with_app (setView searching (page_app p))
                                    (system p)))) =
                [(nextWatchId (system p), mkWatch result routeData)]).
  { unfold watch_inv in Hinv. unfold page_app. simpl.
    destruct (watchIdRef (app (system p))) as [ old | ].
    - destruct Hinv as [w [-> _]]. rewrite clearWatch_single. reflexivity.
    - rewrite Hinv. reflexivity. }
  unfold page_app in *. cbn [system with_system selectedDestination
                             pendingRoutes].
  repeat split; try reflexivity; try exact Hws.
  unfold render. cbn. unfold page_app. rewrite L. reflexivity.
Qed.

(** From the results of a search in the sample, the pub chosen. *)
Lemma chosen_destination_starts_the_session_witness :
  let q := page_run [DestinationSelected Sample.pub;
                     RouteSettled (Responded 200 (Some Sample.route0))]
                    (mkPage Sample.start feet (Some amenity_pub)
                            [Sample.pub] None 0 []) in
  render q = NavigationView /\ system q = Sample.session0.
Proof.
  pose proof (chosen_destination_starts_the_session Sample.pub 200%Z
                Sample.route0
                (mkPage Sample.start feet (Some amenity_pub)
                        [Sample.pub] None 0 [])
                eq_refl (watch_inv_initial _)) as H.
  destruct H as [_ [_ [_ [_ [_ [_ [_ Hr]]]]]]];
    [ discriminate | reflexivity | ].
  cbv zeta. split; [ exact Hr | reflexivity ].
Defined.

(** ** The distance unit *)

(** X15: the distance unit survives a reload. What the effect stores is
    read back as the same unit when the component mounts again; anything
    else in storage, or nothing, gives feet. On the page only the unit
    buttons change the unit. *)
Theorem distanceUnit_survives_reload :
  (forall unit, initialDistanceUnit (saveDistanceUnit unit) = unit) /\
  (forall p,
      distanceUnit (initialPage (saveDistanceUnit (distanceUnit p))) =
      distanceUnit p) /\
  (forall saved,
      initialDistanceUnit saved = meters <-> saved = Some "meters"%string) /\
  (forall ev p,
      distanceUnit (page_step ev p) <> distanceUnit p ->
      ev = UnitChosen (distanceUnit (page_step ev p))).
Proof.
  split; [ intros []; reflexivity | ].
  split; [ intros p; simpl; destruct (distanceUnit p); reflexivity | ].
  split.
  - intros saved. unfold initialDistanceUnit.
    destruct saved as [ s | ]; [ | split; discriminate ].
    destruct (String.eqb s "feet") eqn:F.
    + apply String.eqb_eq in F. subst s. split; discriminate.
    + destruct (String.eqb s "meters") eqn:M.
      * apply String.eqb_eq in M. subst s. split; reflexivity.
      * apply String.eqb_neq in M. split; [ discriminate | ].
        intros H. injection H as ->. contradiction.
  - intros ev p. destruct ev; cbn [page_step]; try (intros H; contradiction H; reflexivity).
    + unfold handleAmenitySelect. destruct (location (page_app p));
        intros H; contradiction H; reflexivity.
    + destruct (pendingSearches p); [ intros H; contradiction H; reflexivity | ].
      unfold handleAmenitySelect_settled.
      destruct response as [ status body | ];
        [ | intros H; contradiction H; reflexivity ].
      destruct (status =? 429)%Z; [ intros H; contradiction H; reflexivity | ].
      destruct (negb (status_ok status));
        [ intros H; contradiction H; reflexivity | ].
      destruct body as [ data | ];
        [ | intros H; contradiction H; reflexivity ].
      destruct (SearchData.count data =? 0)%Z;
        intros H; contradiction H; reflexivity.
    + unfold handleDestinationSelect. destruct (location (page_app p));
        intros H; contradiction H; reflexivity.
    + destruct (pendingRoutes p);
        [ intros H; contradiction H; reflexivity | ].
      unfold handleDestinationSelect_settled.
      destruct response as [ status body | ];
        [ | intros H; contradiction H; reflexivity ].
      destruct (status =? 429)%Z; [ intros H; contradiction H; reflexivity | ].
      destruct (negb (status_ok status));
        [ intros H; contradiction H; reflexivity | ].
      destruct body as [ routeData | ];
        intros H; contradiction H; reflexivity.
    + intros _. reflexivity.
Qed.

(** ** [formatDistance] *)

Lemma Math_round_bounds (x : R) :
  IZR (Math_round x) - 1 / 2 <= x < IZR (Math_round x) + 1 / 2.
Proof. unfold Math_round. pose proof (Zfloor_bound (x + 1 / 2)). lra. Qed.

Lemma Math_round_eq (x : R) (n : Z) :
  IZR n - 1 / 2 <= x < IZR n + 1 / 2 -> Math_round x = n.
Proof. intros H. unfold Math_round. apply Zfloor_eq. lra. Qed.

Lemma Math_round_lower (x : R) (n : Z) :
  IZR n - 1 / 2 <= x -> (n <= Math_round x)%Z.
Proof. intros H. unfold Math_round. apply Zfloor_lub. lra. Qed.

Lemma Math_round_upper (x : R) (n : Z) :
  x < IZR n + 1 / 2 -> (Math_round x <= n)%Z.
Proof.
  intros H. pose proof (Math_round_bounds x) as [B _].
  apply Z.lt_succ_r. apply lt_IZR. rewrite succ_IZR. lra.
Qed.

Lemma number_geb_false (x y : R) : number_geb x y = false <-> x < y.
Proof.
  unfold number_geb. destruct (Rle_dec y x); split; intros; auto;
    try discriminate; lra.
Qed.

(** X16: in metres and below 1000 m, [formatDistance] shows the distance
    rounded to the nearest whole metre, a half rounding up, in emoji
    digits followed by the sign of the metre. The unit is chosen before
    the rounding: from 999.5 m on the number shown is 1000, not one
    kilometre. On this branch the code computes nothing before
    [Math.round]. *)
Theorem formatDistance_whole_metres :
  forall m,
    0 <= m < 1000 ->
    let n := Math_round m in
    formatDistance m meters =
    (emojiDigits (Z_toString n) ++ "Ⓜ️")%string /\
    IZR n - 1 / 2 <= m < IZR n + 1 / 2 /\
    (0 <= n <= 1000)%Z /\
    (n = 1000%Z <-> 999.5 <= m).
Proof.
  intros m Hm n. unfold formatDistance.
  rewrite (proj2 (number_geb_false m 1000)) by lra.
  pose proof (Math_round_bounds m) as B. fold n in B.
  split; [ reflexivity | ]. split; [ exact B | ].
  split; [ split; [ apply Math_round_lower | apply Math_round_upper ]; lra | ].
  split.
  - intros E. rewrite E in B. lra.
  - intros H. apply Math_round_eq. lra.
Qed.

(** 150 m and 999.6 m. *)
Lemma formatDistance_whole_metres_witness :
  formatDistance 150 meters = "1️⃣5️⃣0️⃣Ⓜ️"%string /\
  formatDistance 999.6 meters = "1️⃣0️⃣0️⃣0️⃣Ⓜ️"%string.
Proof.
  split.
  - destruct (formatDistance_whole_metres 150) as [E _]; [ lra | ].
    rewrite E. rewrite (Math_round_eq 150 150) by lra. reflexivity.
  - destruct (formatDistance_whole_metres 999.6) as [E _]; [ lra | ].
    rewrite E. rewrite (Math_round_eq 999.6 1000) by lra. reflexivity.
Defined.

(** ** The instruction panel *)

Lemma arrowOr_symbols (found : option string) :
  (forall a, found = Some a ->
             In a ["⬅️"; "➡️"; "↗️"; "↖️"; "⬆️"; "↩️"; "🏁"]%string) ->
  In (arrowOr found) ["⬅️"; "➡️"; "↗️"; "↖️"; "⬆️"; "↩️"; "🏁"]%string.
Proof.
  intros H. destruct found as [ a | ]; [ apply H; reflexivity | ].
  simpl. tauto.
Qed.

Lemma MANEUVER_ARROWS_symbols (type : Z) (a : string) :
  MANEUVER_ARROWS type = Some a ->
  In a ["⬅️"; "➡️"; "↗️"; "↖️"; "⬆️"; "↩️"; "🏁"]%string.
Proof.
  unfold MANEUVER_ARROWS. intros H.
  destruct type as [ | q | q ]; [ | | discriminate ];
    do 4 (try match goal with
              | q : positive |- _ => destruct q
              end);
    try discriminate; injection H as <-; simpl; tauto.
Qed.

Lemma MANEUVER_ARROWS_missing (type : Z) :
  (type < 0 \/ 13 < type)%Z -> MANEUVER_ARROWS type = None.
Proof.
  intros H. unfold MANEUVER_ARROWS.
  destruct type as [ | q | q ]; [ lia | | reflexivity ];
    do 4 (try match goal with
              | q : positive |- _ => destruct q
              end);
    try reflexivity; lia.
Qed.

(** X17: the instruction panel always has something to show. Whatever the
    route and the index, the arrow is one of the seven signs; a maneuver
    type outside 0 to 13 shows the straight-on arrow, and so does an index
    past the last step, with distance 0 and no preview; the preview of the
    next instruction is there exactly when a step follows the current
    index. *)
Theorem instructionPanel_always_shows :
  forall r index unit,
    let panel := instructionPanel r index unit in
    In (instruction_arrow panel)
       ["⬅️"; "➡️"; "↗️"; "↖️"; "⬆️"; "↩️"; "🏁"]%string /\
    ((length (Route.steps r) <= index)%nat ->
     instruction_arrow panel = "⬆️"%string /\
     instruction_distance panel = formatDistance 0 unit /\
     next_instruction panel = None) /\
    (forall st,
        nth_error (Route.steps r) index = Some st ->
        (RouteStep.type st < 0 \/ 13 < RouteStep.type st)%Z ->
        instruction_arrow panel = "⬆️"%string) /\
    (next_instruction panel = None <->
     (length (Route.steps r) <= index + 1)%nat) /\
    total_distance panel = formatDistance (Route.distance r) unit.
Proof.
  intros r index unit panel. subst panel. unfold instructionPanel.
  cbn [instruction_arrow instruction_distance next_instruction total_distance].
  split; [ | split; [ | split; [ | split ] ] ].
  - apply arrowOr_symbols. apply MANEUVER_ARROWS_symbols.
  - intros H.
    rewrite (proj2 (nth_error_None (Route.steps r) index) H).
    rewrite (proj2 (nth_error_None (Route.steps r) (index + 1)))
      by lia.
    repeat split.
  - intros st Hst Htype. rewrite Hst.
    rewrite (MANEUVER_ARROWS_missing _ Htype). reflexivity.
  - destruct (nth_error (Route.steps r) (index + 1)) as [ st | ] eqn:N.
    + split; [ discriminate | ]. intros H.
      apply nth_error_None in H. congruence.
    + split; [ | reflexivity ]. intros _. apply nth_error_None. exact N.
  - reflexivity.
Qed.

(** The sample route on its first step, and past its steps. *)
Lemma instructionPanel_always_shows_witness :
  instruction_arrow (instructionPanel Sample.route0 0 meters) = "⬆️"%string /\
  instruction_arrow (instructionPanel Sample.route0 2 meters) = "🏁"%string /\
  instructionPanel Sample.route1 2 meters =
  mkInstructionPanel "⬆️" (formatDistance 0 meters) None
                     (formatDistance 333 meters).
Proof.
  destruct (instructionPanel_always_shows Sample.route1 2 meters)
    as [_ [H [_ [_ Ht]]]].
  destruct H as [Ha [Hd Hn]]; [ simpl; lia | ].
  split; [ reflexivity | ]. split; [ reflexivity | ].
  destruct (instructionPanel Sample.route1 2 meters) as [a d n t].
  simpl in *. subst. reflexivity.
Defined.
